(** * Action segment detection engine of [processor.py]

    A shallow embedding of [VideoProcessor.detect_high_action_segments] and
    the helpers it calls ([_detect_segments_with_api],
    [_detect_segments_with_motion], [_extract_segments_from_scores],
    [_remove_overlapping_segments]), followed by the properties of the
    engine that hold of this code.

    Conventions of the embedding.
    - Python floats are exact rationals ([Q]); [==] is equality of numbers.
      NaN and the infinities are outside the model.
    - A Python function that may raise returns [result A]; [try ... except
      Exception] is [try_except].
    - What the engine gets from OpenCV, NumPy's square root, the file system
      and the HTTP client is a variable of the section [Engine]. *)

From Stdlib Require Import QArith Qminmax Qround Qabs Lqa ZArith Lia String Bool.
From Stdlib Require Import Sorted.
From stdpp Require Import base list sorting.

Open Scope Q_scope.

(** ** Exceptions

    The exceptions the engine can meet.  All of them derive from
    [Exception], so [except Exception] catches each. *)

Inductive exn : Type :=
| ValueError
| ZeroDivisionError
| IndexError
| KeyError
| TypeError
| OverflowError
| AttributeError
| OSError
| RequestException
| JSONDecodeError
| CvError.

Inductive result (A : Type) : Type :=
| Ok (a : A)
| Raise (e : exn).

Arguments Ok {A} a.
Arguments Raise {A} e.

Definition rbind {A B : Type} (m : result A) (k : A -> result B) : result B :=
  match m with
  | Ok a => k a
  | Raise e => Raise e
  end.

Notation "'do' x <- m ; k" := (rbind m (fun x => k))
  (at level 10, x name, m at level 100, k at level 200).

(** [try: body  except Exception: handler] *)
Definition try_except {A : Type} (body : result A) (handler : exn -> result A)
  : result A :=
  match body with
  | Ok a => Ok a
  | Raise e => handler e
  end.

(** [for x in xs: acc = body acc x], stopping at the first exception. *)
Fixpoint for_each {A S : Type} (body : S -> A -> result S) (xs : list A)
  (acc : S) : result S :=
  match xs with
  | [] => Ok acc
  | x :: xs' => do acc' <- body acc x; for_each body xs' acc'
  end.

(** ** Python built-ins used by the engine *)

(** [a < b] on floats. *)
Definition Qltb (a b : Q) : bool := negb (Qle_bool b a).

(** [a / b] on floats. *)
Definition py_div (a b : Q) : result Q :=
  if Qeq_bool b 0 then Raise ZeroDivisionError else Ok (a / b).

(** [a % b] on ints; the sign of the result follows the divisor, as
    [Z.modulo] does. *)
Definition py_mod (a b : Z) : result Z :=
  if (b =? 0)%Z then Raise ZeroDivisionError else Ok (a mod b)%Z.

(** [int(x)]: truncation toward zero. *)
Definition py_int (x : Q) : Z := Z.quot (Qnum x) (Zpos (Qden x)).

(** [round(x)]: to the nearest integer, ties to the even one. *)
Definition py_round (x : Q) : Z :=
  let f := Qfloor x in
  let r := x - inject_Z f in
  if Qltb r (1 # 2) then f
  else if Qltb (1 # 2) r then (f + 1)%Z
  else if Z.even f then f else (f + 1)%Z.

(** [range(start, stop, step)] *)
Definition py_range (start stop step : Z) : result (list Z) :=
  if (step =? 0)%Z then Raise ValueError
  else
    let count :=
      (if 0 <? step then (stop - start + step - 1) / step
       else (start - stop - step - 1) / (- step))%Z in
    Ok (map (fun k : nat => start + Z.of_nat k * step)%Z (seq 0 (Z.to_nat count))).

(** Index normalisation of a slice bound against a sequence of [n] items. *)
Definition slice_bound (n k : Z) : Z :=
  if (k <? 0)%Z then Z.max 0 (k + n) else Z.min k n.

(** [l[lo:hi]] *)
Definition py_slice {A : Type} (l : list A) (lo hi : Z) : list A :=
  let n := Z.of_nat (length l) in
  let a := slice_bound n lo in
  let b := slice_bound n hi in
  take (Z.to_nat (b - a)) (drop (Z.to_nat a) l).

(** [l[0]] and [l[-1]] *)
Definition py_first {A : Type} (l : list A) : result A :=
  match l with
  | [] => Raise IndexError
  | x :: _ => Ok x
  end.

Definition py_last {A : Type} (l : list A) : result A :=
  match last l with
  | None => Raise IndexError
  | Some x => Ok x
  end.

(** [max(xs)] and [min(xs)] over a list: the first extremal element. *)
Definition py_max (xs : list Q) : result Q :=
  match xs with
  | [] => Raise ValueError
  | x :: xs' => Ok (fold_left (fun acc y => if Qltb acc y then y else acc) xs' x)
  end.

Definition py_min (xs : list Q) : result Q :=
  match xs with
  | [] => Raise ValueError
  | x :: xs' => Ok (fold_left (fun acc y => if Qltb y acc then y else acc) xs' x)
  end.

(** [max(a, b)] and [min(a, b)] with two arguments: the first one on a tie. *)
Definition py_max2 (a b : Q) : Q := if Qltb a b then b else a.
Definition py_min2 (a b : Q) : Q := if Qltb b a then b else a.

(** ** NumPy reductions *)

Definition Qsum (xs : list Q) : Q := fold_right Qplus 0 xs.

(** [np.mean(xs)].  On an empty list NumPy yields NaN; the engine only
    reduces non-empty lists. *)
Definition np_mean (xs : list Q) : Q := Qsum xs / inject_Z (Z.of_nat (length xs)).

(** [np.var(xs)]: the mean of the squared deviations from the mean. *)
Definition np_var (xs : list Q) : Q :=
  let mu := np_mean xs in
  np_mean (map (fun x => (x - mu) * (x - mu)) xs).


(** ** Configuration ([config.py]) *)

Definition MIN_CLIP_LENGTH : Z := 15.
Definition MAX_CLIP_LENGTH : Z := 60.
Definition TARGET_CLIP_LENGTH : Z := 30.
Definition MOTION_THRESHOLD : Q := 15 # 100.
Definition FRAME_SAMPLE_RATE : Z := 2.

(** ** Data model *)

(** The attributes [VideoProcessor.__init__] sets.  [clipping_api_key] is
    [None] when the environment variable is unset. *)
Record VideoProcessor : Type := mkVideoProcessor {
  motion_threshold : Q;
  frame_sample_rate : Z;
  use_clipping_api : bool;
  clipping_api_key : option string;
  clipping_api_url : string
}.

(** [VideoProcessor.__init__], given the three settings [config.py] reads
    from the environment. *)
Definition VideoProcessor_init (enabled : bool) (key : option string)
  (url : string) : VideoProcessor :=
  mkVideoProcessor MOTION_THRESHOLD FRAME_SAMPLE_RATE enabled key url.

(** Truth value of [self.clipping_api_key]: [None] and the empty string are
    false. *)
Definition key_truthy (k : option string) : bool :=
  match k with
  | None => false
  | Some s => negb (String.eqb s "")
  end.

(** An entry of [motion_scores] as appended in the frame loop. *)
Module Motion.
Record t : Type := mk { frame : Z; time : Q; score : Q }.
End Motion.

(** An entry of [motion_scores] once the key [normalized_score] is set. *)
Record Normalized : Type := mkNormalized {
  sample : Motion.t;
  normalized_score : Q
}.

(** A segment dictionary.  [V] is the type of the values under ['score'] and
    ['confidence']: floats on the motion path, whatever the remote body holds
    on the API path. *)
Record Segment (V : Type) : Type := mkSegment {
  start : Q;
  end_ : Q;
  duration : Q;
  score : V;
  confidence : V
}.

Arguments mkSegment {V} _ _ _ _ _.
Arguments start {V} _.
Arguments end_ {V} _.
Arguments duration {V} _.
Arguments score {V} _.
Arguments confidence {V} _.

(** A decoded JSON value, as [response.json()] returns it: a JSON number
    without fraction or exponent is an [int] ([VInt]), any other one is a
    [float] ([VNum]). *)
#[warnings="-register-all"]
Inductive pyval : Type :=
| VNone
| VBool (b : bool)
| VInt (z : Z)
| VNum (q : Q)
| VStr (s : string)
| VList (l : list pyval)
| VDict (d : list (string * pyval)).

(** What [cv2.VideoCapture(video_path)] gives access to: whether the source
    opened, the two container properties read, and the frames that
    successive [cap.read()] calls return. *)
Record VideoCapture (Frame : Type) : Type := mkVideoCapture {
  isOpened : bool;
  CAP_PROP_FPS : Q;
  CAP_PROP_FRAME_COUNT : Q;
  frames : list Frame
}.

Arguments mkVideoCapture {Frame} _ _ _ _.
Arguments isOpened {Frame} _.
Arguments CAP_PROP_FPS {Frame} _.
Arguments CAP_PROP_FRAME_COUNT {Frame} _.
Arguments frames {Frame} _.

(** The HTTP response of the clipping service. *)
Record Response : Type := mkResponse {
  status_code : Z;
  json : result pyval
}.

(** ** Operations on decoded JSON *)

Fixpoint dict_lookup (d : list (string * pyval)) (k : string) : option pyval :=
  match d with
  | [] => None
  | (k', v) :: d' => if String.eqb k' k then Some v else dict_lookup d' k
  end.

(** [v.get(k, default)] *)
Definition py_get (v : pyval) (k : string) (default : pyval) : result pyval :=
  match v with
  | VDict d => Ok (match dict_lookup d k with Some x => x | None => default end)
  | _ => Raise AttributeError
  end.

(** [v[k]] with a string key [k] *)
Definition py_getitem (v : pyval) (k : string) : result pyval :=
  match v with
  | VDict d =>
      match dict_lookup d k with
      | Some x => Ok x
      | None => Raise KeyError
      end
  | _ => Raise TypeError
  end.

Fixpoint chars (s : string) : list pyval :=
  match s with
  | EmptyString => []
  | String c s' => VStr (String c EmptyString) :: chars s'
  end.

(** The items [for seg in v] visits. *)
Definition py_iter (v : pyval) : result (list pyval) :=
  match v with
  | VList l => Ok l
  | VStr s => Ok (chars s)
  | VDict d => Ok (map (fun kv => VStr (fst kv)) d)
  | _ => Raise TypeError
  end.

(** The number a value stands for in arithmetic; [True] is 1 and [False]
    is 0. *)
Definition as_number (v : pyval) : result Q :=
  match v with
  | VNum q => Ok q
  | VInt z => Ok (inject_Z z)
  | VBool b => Ok (if b then 1 else 0)
  | _ => Raise TypeError
  end.

(** Whether the conversion of the [int] [z] to a [float] raises: [z]
    rounds to a magnitude above the largest double, [2^1024 - 2^971]. *)
Definition float_overflows (z : Z) : bool :=
  (2 ^ 1024 - 2 ^ 970 <=? Z.abs z)%Z.

(** [a - b].  Two [int]s (or [bool]s) are subtracted as they are; next to a
    [float] an [int] is converted to a [float] first. *)
Definition py_sub (a b : pyval) : result Q :=
  do x <- as_number a;
  do y <- as_number b;
  match a, b with
  | VInt z, VNum _ | VNum _, VInt z =>
      if float_overflows z then Raise OverflowError else Ok (x - y)
  | _, _ => Ok (x - y)
  end.

Arguments float_overflows : simpl never.

(** ** Overlap resolution and sorting *)

(** [not (seg['end'] <= existing['start'] or seg['start'] >= existing['end'])] *)
Definition overlaps {V : Type} (seg existing : Segment V) : bool :=
  negb (Qle_bool (end_ seg) (start existing)
        || Qle_bool (end_ existing) (start seg)).

(** The body of the outer loop of lines 285-294. *)
Definition resolve_step {V : Type} (non_overlapping : list (Segment V))
  (seg : Segment V) : list (Segment V) :=
  if existsb (overlaps seg) non_overlapping then non_overlapping
  else non_overlapping ++ [seg].

Definition _remove_overlapping_segments {V : Type} (segments : list (Segment V))
  : list (Segment V) :=
  match segments with
  | [] => []
  | _ => fold_left resolve_step segments []
  end.

(** [sorted(segments, key=lambda x: x['score'], reverse=True)]: a stable
    sort, highest score first; equal scores keep their input order. *)
Fixpoint insert_by_score (x : Segment Q) (l : list (Segment Q))
  : list (Segment Q) :=
  match l with
  | [] => [x]
  | y :: l' =>
      if Qltb (score x) (score y) then y :: insert_by_score x l'
      else x :: y :: l'
  end.

Definition sorted_by_score (segments : list (Segment Q)) : list (Segment Q) :=
  fold_right insert_by_score [] segments.

(** ** The engine *)

Section Engine.

(** A decoded frame and its 320x240 grayscale version. *)
Variables Frame Gray : Type.

(** [cv2.VideoCapture(video_path)] *)
Variable cv2_VideoCapture : string -> VideoCapture Frame.

(** [cv2.cvtColor(cv2.resize(frame, (320, 240)), cv2.COLOR_BGR2GRAY)] *)
Variable to_gray : Frame -> result Gray.

(** [np.mean] of the magnitude of [cv2.calcOpticalFlowFarneback(prev, gray,
    ...)]. *)
Variable mean_flow_magnitude : Gray -> Gray -> result Q.

(** The square root [np.std] takes. *)
Variable np_sqrt : Q -> Q.

(** [open(video_path, 'rb')] *)
Variable open_rb : string -> result unit.

(** [requests.post(url, files, headers, data, timeout=300)], given the
    URL, the bearer key, the path of the uploaded file and the form fields
    [target_duration], [min_duration], [max_duration]. *)
Variable requests_post :
  string -> option string -> string -> Z -> Z -> Z -> result Response.

Variable self : VideoProcessor.

(** [np.std(xs)] *)
Definition np_std (xs : list Q) : Q := np_sqrt (np_var xs).

(** *** Frame loop of [_detect_segments_with_motion] (lines 144-183) *)

Record loop_state : Type := mkLoop {
  prev_frame : option Gray;
  frame_idx : Z;
  motion_scores : list Motion.t
}.

Definition frame_step (fps : Q) (st : loop_state) (frame : Frame)
  : result loop_state :=
  do r <- py_mod (frame_idx st) (frame_sample_rate self);
  if negb (r =? 0)%Z then
    Ok (mkLoop (prev_frame st) (frame_idx st + 1)%Z (motion_scores st))
  else
    do gray <- to_gray frame;
    do scores <-
      match prev_frame st with
      | Some prev =>
          do motion_score <- mean_flow_magnitude prev gray;
          do t <- py_div (inject_Z (frame_idx st)) fps;
          Ok (motion_scores st ++ [Motion.mk (frame_idx st) t motion_score])
      | None => Ok (motion_scores st)
      end;
    Ok (mkLoop (Some gray) (frame_idx st + 1)%Z scores).

Definition collect_motion_scores (cap : VideoCapture Frame)
  : result (list Motion.t) :=
  do st <- for_each (frame_step (CAP_PROP_FPS cap)) (frames cap)
             (mkLoop None 0%Z []);
  Ok (motion_scores st).

(** *** Normalisation (lines 191-198) *)

Definition score_range (max_score min_score : Q) : Q :=
  if Qltb min_score max_score then max_score - min_score else 1.

Definition normalize_scores (motion_scores : list Motion.t)
  : result (list Normalized) :=
  let scores := map Motion.score motion_scores in
  do max_score <- py_max scores;
  do min_score <- py_min scores;
  let range := score_range max_score min_score in
  Ok (map (fun m => mkNormalized m ((Motion.score m - min_score) / range))
        motion_scores).

(** *** [_extract_segments_from_scores] *)

Definition threshold_of (motion_scores : list Normalized) : Q :=
  let normalized_scores := map normalized_score motion_scores in
  let mean_score := np_mean normalized_scores in
  let std_score := np_std normalized_scores in
  mean_score + std_score * (1 # 2).

(** [int(fps * segment_duration / self.frame_sample_rate)] *)
Definition window_size_of (fps : Q) (segment_duration : Z) : result Z :=
  do x <- py_div (fps * inject_Z segment_duration)
            (inject_Z (frame_sample_rate self));
  Ok (py_int x).

Definition step_size_of (window_size : Z) : Z := (window_size / 2)%Z.

Definition window_at (motion_scores : list Normalized) (window_size i : Z)
  : list Normalized :=
  py_slice motion_scores i (i + window_size).

Definition window_avg (window : list Normalized) : Q :=
  np_mean (map normalized_score window).

(** Lines 257-262: a window shorter than [MIN_CLIP_LENGTH] is extended. *)
Definition extend_window (motion_scores : list Normalized)
  (start_time end_time : Q) : result (Q * Q) :=
  let duration := end_time - start_time in
  if Qltb duration (inject_Z MIN_CLIP_LENGTH) then
    let extension := (inject_Z MIN_CLIP_LENGTH - duration) / 2 in
    let start_time := py_max2 0 (start_time - extension) in
    do m_last <- py_last motion_scores;
    Ok (start_time, py_min2 (Motion.time (sample m_last)) (end_time + extension))
  else Ok (start_time, end_time).

(** Lines 264-271: the segment is appended only within the limits. *)
Definition accept_window (start_time end_time avg_score : Q)
  : option (Segment Q) :=
  let duration := end_time - start_time in
  if Qle_bool (inject_Z MIN_CLIP_LENGTH) duration
     && Qle_bool duration (inject_Z MAX_CLIP_LENGTH)
  then Some (mkSegment start_time end_time duration avg_score
               (py_min2 1 (avg_score * (3 # 2))))
  else None.

(** Lines 252-271: what a window above the threshold contributes. *)
Definition clamp_window (motion_scores window : list Normalized)
  (avg_score : Q) : result (option (Segment Q)) :=
  do w_first <- py_first window;
  do w_last <- py_last window;
  do span <- extend_window motion_scores (Motion.time (sample w_first))
               (Motion.time (sample w_last));
  Ok (accept_window (fst span) (snd span) avg_score).

(** The body of the loop of lines 247-271. *)
Definition window_step (motion_scores : list Normalized) (threshold : Q)
  (window_size : Z) (segments : list (Segment Q)) (i : Z)
  : result (list (Segment Q)) :=
  let window := window_at motion_scores window_size i in
  let avg_score := window_avg window in
  if Qltb threshold avg_score then
    do seg <- clamp_window motion_scores window avg_score;
    Ok (segments ++ option_list seg)
  else Ok segments.

(** The test of line 251 on the window that starts at [i]. *)
Definition is_candidate (motion_scores : list Normalized) (threshold : Q)
  (window_size i : Z) : bool :=
  Qltb threshold (window_avg (window_at motion_scores window_size i)).

(** What the window that starts at [i] appends once it passed that test. *)
Definition window_segments (motion_scores : list Normalized)
  (window_size i : Z) : list (Segment Q) :=
  let window := window_at motion_scores window_size i in
  match clamp_window motion_scores window (window_avg window) with
  | Ok seg => option_list seg
  | Raise _ => []
  end.

(** Lines 239-271: the candidate segments, before sorting. *)
Definition collect_segments (motion_scores : list Normalized) (fps : Q)
  (segment_duration : Z) : result (list (Segment Q)) :=
  let threshold := threshold_of motion_scores in
  do window_size <- window_size_of fps segment_duration;
  let step_size := step_size_of window_size in
  do idxs <- py_range 0 (Z.of_nat (length motion_scores) - window_size)
               step_size;
  for_each (window_step motion_scores threshold window_size) idxs [].

Definition _extract_segments_from_scores (motion_scores : list Normalized)
  (fps : Q) (segment_duration : Z) : result (list (Segment Q)) :=
  match motion_scores with
  | [] => Ok []
  | _ =>
      do segments <- collect_segments motion_scores fps segment_duration;
      let segments := sorted_by_score segments in
      Ok (_remove_overlapping_segments segments)
  end.

(** *** [_detect_segments_with_motion] *)

(** [total_frames / fps if fps > 0 else 0] (line 140) *)
Definition total_duration (cap : VideoCapture Frame) : Q :=
  let fps := CAP_PROP_FPS cap in
  let total_frames := py_int (CAP_PROP_FRAME_COUNT cap) in
  if Qltb 0 fps then inject_Z total_frames / fps else 0.

(** The body of the [try] (lines 134-206). *)
Definition motion_body (video_path : string) (segment_duration : Z)
  : result (list (Segment Q)) :=
  let cap := cv2_VideoCapture video_path in
  if negb (isOpened cap) then Raise ValueError
  else
    let fps := CAP_PROP_FPS cap in
    do motion_scores <- collect_motion_scores cap;
    match motion_scores with
    | [] => Ok []
    | _ =>
        do motion_scores <- normalize_scores motion_scores;
        _extract_segments_from_scores motion_scores fps segment_duration
    end.

Definition _detect_segments_with_motion (video_path : string)
  (segment_duration : Z) : result (list (Segment Q)) :=
  try_except (motion_body video_path segment_duration) (fun _ => Ok []).

(** *** [_detect_segments_with_api] *)

(** A motion segment as a segment dictionary of the engine's output. *)
Definition to_dict (seg : Segment Q) : Segment pyval :=
  mkSegment (start seg) (end_ seg) (duration seg)
    (VNum (score seg)) (VNum (confidence seg)).

(** [self._detect_segments_with_motion(video_path, segment_duration)] as
    the caller of the engine sees it. *)
Definition motion_path (video_path : string) (segment_duration : Z)
  : result (list (Segment pyval)) :=
  do segments <- _detect_segments_with_motion video_path segment_duration;
  Ok (map to_dict segments).

(** The body of the loop of lines 104-111. *)
Definition remote_item (segments : list (Segment pyval)) (seg : pyval)
  : result (list (Segment pyval)) :=
  do start_v <- py_getitem seg "start_time";
  do end_v <- py_getitem seg "end_time";
  do duration <- py_sub end_v start_v;
  do e <- as_number end_v;
  do s <- as_number start_v;
  do sc <- py_get seg "action_score" (VNum (1 # 2));
  do cf <- py_get seg "confidence" (VNum (1 # 2));
  Ok (segments ++ [mkSegment s e duration sc cf]).

(** Lines 102-113 *)
Definition parse_response (response : Response)
  : result (list (Segment pyval)) :=
  do result <- json response;
  do listed <- py_get result "segments" (VList []);
  do items <- py_iter listed;
  for_each remote_item items [].

(** The body of the [try] (lines 84-116). *)
Definition api_body (video_path : string) (segment_duration : Z)
  : result (list (Segment pyval)) :=
  do _ <- open_rb video_path;
  do response <-
    requests_post (clipping_api_url self ++ "/analyze")%string
      (clipping_api_key self) video_path
      segment_duration MIN_CLIP_LENGTH MAX_CLIP_LENGTH;
  if (status_code response =? 200)%Z then parse_response response
  else motion_path video_path segment_duration.

Definition _detect_segments_with_api (video_path : string)
  (segment_duration : Z) : result (list (Segment pyval)) :=
  try_except (api_body video_path segment_duration)
    (fun _ => motion_path video_path segment_duration).

(** *** [detect_high_action_segments] *)

(** Lines 61-62: [segment_duration] defaults to [TARGET_CLIP_LENGTH]. *)
Definition effective_duration (segment_duration : option Z) : Z :=
  match segment_duration with
  | None => TARGET_CLIP_LENGTH
  | Some d => d
  end.

Definition detect_high_action_segments (video_path : string)
  (segment_duration : option Z) : result (list (Segment pyval)) :=
  let segment_duration := effective_duration segment_duration in
  if use_clipping_api self && key_truthy (clipping_api_key self) then
    _detect_segments_with_api video_path segment_duration
  else motion_path video_path segment_duration.

(** The remote request fails: the file cannot be read, the request raises,
    or the response does not carry status 200. *)
Definition request_failed (path : string) (d : Z) : Prop :=
  (exists e, open_rb path = Raise e)
  \/ (exists e,
        requests_post (clipping_api_url self ++ "/analyze")%string
          (clipping_api_key self) path d MIN_CLIP_LENGTH MAX_CLIP_LENGTH
        = Raise e)
  \/ (exists response,
        requests_post (clipping_api_url self ++ "/analyze")%string
          (clipping_api_key self) path d MIN_CLIP_LENGTH MAX_CLIP_LENGTH
        = Ok response
        /\ status_code response <> 200%Z).

End Engine.

Arguments frame_step {Frame Gray} _ _ _ _ _ _.
Arguments collect_motion_scores {Frame Gray} _ _ _ _.
Arguments total_duration {Frame} _.
Arguments motion_body {Frame Gray} _ _ _ _ _ _ _.
Arguments _detect_segments_with_motion {Frame Gray} _ _ _ _ _ _ _.
Arguments motion_path {Frame Gray} _ _ _ _ _ _ _.
Arguments api_body {Frame Gray} _ _ _ _ _ _ _ _ _.
Arguments _detect_segments_with_api {Frame Gray} _ _ _ _ _ _ _ _ _.
Arguments detect_high_action_segments {Frame Gray} _ _ _ _ _ _ _ _ _.

(** ** Predicates the properties are stated with *)

(** The half-open interval test: [a.end > b.start and a.start < b.end]. *)
Definition time_overlap {V : Type} (a b : Segment V) : Prop :=
  start b < end_ a /\ start a < end_ b.

(** No two segments at distinct positions of the sequence overlap. *)
Definition pairwise_disjoint {V : Type} (segments : list (Segment V)) : Prop :=
  forall (i j : nat) (a b : Segment V),
    i <> j -> segments !! i = Some a -> segments !! j = Some b ->
    ~ time_overlap a b.

(** The call returns, and what it returns satisfies [P]. *)
Definition returns {A : Type} (r : result A) (P : A -> Prop) : Prop :=
  match r with
  | Ok a => P a
  | Raise _ => False
  end.

(** The first segment of a list scores at least as high as every other. *)
Definition head_is_max (l : list (Segment Q)) : Prop :=
  match l with
  | [] => True
  | h :: _ => Forall (fun c => score c <= score h) l
  end.

(** The strategy [detect_high_action_segments] selects (line 64). *)
Inductive strategy : Type := REMOTE | LOCAL.

Definition select_strategy (self : VideoProcessor) : strategy :=
  if use_clipping_api self && key_truthy (clipping_api_key self) then REMOTE
  else LOCAL.

(** The limits every appended segment satisfies. *)
Definition within_limits (seg : Segment Q) : Prop :=
  inject_Z MIN_CLIP_LENGTH <= duration seg <= inject_Z MAX_CLIP_LENGTH
  /\ duration seg == end_ seg - start seg.

(** What makes the loop of lines 104-111 raise on an item: the item is not
    an object, it lacks [start_time] or [end_time], or one of the two is not
    a number. *)
Definition is_number (v : pyval) : bool :=
  match v with
  | VNum _ | VInt _ | VBool _ => true
  | _ => false
  end.

Definition item_unreadable (seg : pyval) : bool :=
  match seg with
  | VDict d =>
      match dict_lookup d "start_time", dict_lookup d "end_time" with
      | Some s, Some e => negb (is_number s && is_number e)
      | _, _ => true
      end
  | _ => true
  end.

(** What makes lines 102-111 raise on a response: the body does not decode,
    it is not an object, the value under [segments] cannot be iterated, or
    an item is unreadable.  A body without [segments] is read as an empty
    list. *)
Definition response_unreadable (response : Response) : bool :=
  match json response with
  | Raise _ => true
  | Ok (VDict body) =>
      match dict_lookup body "segments" with
      | None => false
      | Some listed =>
          match py_iter listed with
          | Raise _ => true
          | Ok items => existsb item_unreadable items
          end
      end
  | Ok _ => true
  end.

(** ** The specification's wording, where it is compared with the code *)

(** "Window length in samples = round(fps * T / s)" *)
Definition spec_window_length (fps : Q) (T s : Z) : Z :=
  py_round (fps * inject_Z T / inject_Z s).

(** "Slides this window from index 0 while index + window_length <=
    len(samples)", in steps of [window_length // 2]. *)
Definition spec_window_starts (window_length n : Z) : list Z :=
  let step := (window_length / 2)%Z in
  if (0 <? step)%Z && (window_length <=? n)%Z then
    map (fun k : nat => Z.of_nat k * step)%Z
      (seq 0 (Z.to_nat ((n - window_length) / step + 1)))
  else [].

(** "extend symmetrically by (min_duration - duration)/2 on both sides,
    clipped to [0, video_duration]" *)
Definition spec_extend_window (video_duration start_time end_time : Q) : Q * Q :=
  let duration := end_time - start_time in
  let extension := (inject_Z MIN_CLIP_LENGTH - duration) / 2 in
  (Qmax 0 (start_time - extension),
   Qmin video_duration (end_time + extension)).

(** The success body of the remote protocol: an object whose [segments] is a
    list of objects with the four float fields [start_time], [end_time],
    [action_score] and [confidence], each of them a JSON number. *)
Definition is_float (v : option pyval) : bool :=
  match v with
  | Some (VNum _) | Some (VInt _) => true
  | _ => false
  end.

Definition spec_item_parses (seg : pyval) : bool :=
  match seg with
  | VDict d =>
      is_float (dict_lookup d "start_time")
      && is_float (dict_lookup d "end_time")
      && is_float (dict_lookup d "action_score")
      && is_float (dict_lookup d "confidence")
  | _ => false
  end.

Definition spec_body_parses (body : pyval) : bool :=
  match body with
  | VDict d =>
      match dict_lookup d "segments" with
      | Some (VList items) => forallb spec_item_parses items
      | _ => false
      end
  | _ => false
  end.

(** "any field parse failure" *)
Definition field_parse_failure (response : Response) : bool :=
  match json response with
  | Ok body => negb (spec_body_parses body)
  | Raise _ => true
  end.

(** ** A concrete environment

    Frames are luma levels, the motion score of two consecutive samples is
    the absolute difference of their levels, and the square root is taken
    to twenty binary digits. *)

Definition sqrt_approx (x : Q) : Q :=
  inject_Z (Z.sqrt (Qnum x * Zpos (Qden x) * 2 ^ 40))
  / inject_Z (Zpos (Qden x) * 2 ^ 20).

Definition luma_gray (f : Q) : result Q := Ok f.

Definition luma_flow (prev gray : Q) : result Q := Ok (Qabs (gray - prev)).

Definition capture_of (fps : Q) (lumas : list Q) : VideoCapture Q :=
  mkVideoCapture true fps (inject_Z (Z.of_nat (length lumas))) lumas.

Definition unopenable : VideoCapture Q := mkVideoCapture false 0 0 [].

Definition local_processor (rate : Z) : VideoProcessor :=
  mkVideoProcessor MOTION_THRESHOLD rate false None
    "https://api.vidyo.ai/v1/clips".

Definition remote_processor (rate : Z) : VideoProcessor :=
  mkVideoProcessor MOTION_THRESHOLD rate true (Some "key"%string)
    "https://api.vidyo.ai/v1/clips".

Definition no_network (url : string) (key : option string) (path : string)
  (target min_d max_d : Z) : result Response := Raise RequestException.

Definition readable (path : string) : result unit := Ok tt.

(** A 20-frame video at 1 frame per second whose luma flashes at frame 12:
    the motion samples of frames 12 and 13 score 1, all others 0. *)
Definition burst_lumas : list Q :=
  map (fun k => if Nat.eqb k 12 then 1 else 0) (seq 0 20).

Definition burst_video (path : string) : VideoCapture Q :=
  capture_of 1 burst_lumas.

(** A 60-frame video at 1 frame per second with flashes at frames 15 and
    40. *)
Definition two_burst_lumas : list Q :=
  map (fun k => if Nat.eqb k 15 || Nat.eqb k 40 then 1 else 0) (seq 0 60).

Definition two_burst_video (path : string) : VideoCapture Q :=
  capture_of 1 two_burst_lumas.

(** Nine motion samples of a still scene, one per second. *)
Definition still_samples : list Normalized :=
  map (fun k : nat =>
         mkNormalized (Motion.mk (Z.of_nat k) (inject_Z (Z.of_nat k)) 0) 0)
    (seq 1 9).

(** A 30 s video of 900 frames at 30 frames per second. *)
Definition thirty_second_video (path : string) : VideoCapture Q :=
  capture_of 30 (repeat 0 900).

(** A 5-frame video of a still scene at 1 frame per second. *)
Definition still_video (path : string) : VideoCapture Q :=
  capture_of 1 [0; 0; 0; 0; 0].

(** A 3-frame video at 1 frame per second. *)
Definition short_video (path : string) : VideoCapture Q :=
  capture_of 1 [0; 1; 0].

Definition service_answers (status : Z) (body : pyval) (url : string)
  (key : option string) (path : string) (target min_d max_d : Z)
  : result Response :=
  Ok (mkResponse status (Ok body)).

(** [{"segments": [{"start_time": 0, "end_time": 10, "action_score": 0.9,
    "confidence": 0.8}, {"start_time": 5, "end_time": 15, "action_score":
    0.7, "confidence": 0.6}]}] *)
Definition overlapping_body : pyval :=
  VDict [("segments"%string,
          VList [VDict [("start_time"%string, VInt 0);
                        ("end_time"%string, VInt 10);
                        ("action_score"%string, VNum (9 # 10));
                        ("confidence"%string, VNum (8 # 10))];
                 VDict [("start_time"%string, VInt 5);
                        ("end_time"%string, VInt 15);
                        ("action_score"%string, VNum (7 # 10));
                        ("confidence"%string, VNum (6 # 10))]])].

(** [{"segments": [{"start_time": 0, "end_time": 10, "action_score": "high",
    "confidence": 0.9}]}] *)
Definition unparsed_score_body : pyval :=
  VDict [("segments"%string,
          VList [VDict [("start_time"%string, VInt 0);
                        ("end_time"%string, VInt 10);
                        ("action_score"%string, VStr "high");
                        ("confidence"%string, VNum (9 # 10))]])].

(** [{"segments": [{"start_time": 0, "end_time": 10, "action_score": 0.9,
    "confidence": 0.8}, {"start_time": 20}]}] *)
Definition truncated_item_body : pyval :=
  VDict [("segments"%string,
          VList [VDict [("start_time"%string, VInt 0);
                        ("end_time"%string, VInt 10);
                        ("action_score"%string, VNum (9 # 10));
                        ("confidence"%string, VNum (8 # 10))];
                 VDict [("start_time"%string, VInt 20)]])].

(** ** [crop_to_vertical]: the crop box (lines 326-342) *)

Definition OUTPUT_RESOLUTION : Z * Z := (1080, 1920)%Z.

(** The arguments of [segment.crop(x1=..., y1=..., x2=..., y2=...)]. *)
Record CropBox : Type := mkCropBox {
  x1 : Z;
  y1 : Z;
  x2 : Z;
  y2 : Z
}.

(** The box cut out of a [w] by [h] frame. *)
Definition crop_box (w h : Z) : result CropBox :=
  let '(target_w, target_h) := OUTPUT_RESOLUTION in
  do target_aspect <- py_div (inject_Z target_w) (inject_Z target_h);
  do aspect <- py_div (inject_Z w) (inject_Z h);
  if Qltb target_aspect aspect then
    let new_w := py_int (inject_Z h * target_aspect) in
    let x_offset := ((w - new_w) / 2)%Z in
    Ok (mkCropBox x_offset 0 (x_offset + new_w) h)
  else
    do scaled <- py_div (inject_Z w) target_aspect;
    let new_h := py_int scaled in
    let y_offset := ((h - new_h) / 2)%Z in
    Ok (mkCropBox 0 y_offset w (y_offset + new_h)).

(** ** [ContentPipeline.process_video]: the clips it cuts (pipeline.py) *)

(** Lines 95-104: the first portion of the video stands in when detection
    found nothing. *)
Definition segments_or_fallback (segments : list (Segment pyval))
  (video_duration : Q) : list (Segment pyval) :=
  match segments with
  | [] =>
      [mkSegment 0
         (py_min2 (inject_Z TARGET_CLIP_LENGTH) video_duration)
         (py_min2 (inject_Z TARGET_CLIP_LENGTH) video_duration)
         (VNum (1 # 2)) (VNum (1 # 2))]
  | _ => segments
  end.

(** Lines 116-127: the start and end handed to [crop_to_vertical]. *)
Definition clip_bounds {V : Type} (video_duration : Q) (segment : Segment V)
  : Q * Q :=
  let start := start segment in
  let end_time := end_ segment in
  let duration := end_time - start in
  if Qltb duration (inject_Z MIN_CLIP_LENGTH) then
    let extension := (inject_Z MIN_CLIP_LENGTH - duration) / 2 in
    (py_max2 0 (start - extension),
     py_min2 video_duration (end_time + extension))
  else if Qltb (inject_Z MAX_CLIP_LENGTH) duration then
    (start, start + inject_Z MAX_CLIP_LENGTH)
  else (start, end_time).

(** Lines 112-139: the clips cut for one video, [segments[:num_clips]] with
    their bounds. *)
Definition planned_clips (segments : list (Segment pyval))
  (video_duration : Q) (num_clips : Z) : list (Q * Q) :=
  map (clip_bounds video_duration)
    (py_slice (segments_or_fallback segments video_duration) 0 num_clips).

(** [ContentPipeline.process_multiple_urls] (lines 254-269), given what
    [process_video] does on each URL. *)
Definition process_multiple_urls {Bundle : Type}
  (process_video : string -> Z -> result (list Bundle))
  (urls : list string) (num_clips_per_video : Z) : list Bundle :=
  fold_left
    (fun all_bundles url =>
       match process_video url num_clips_per_video with
       | Ok bundles => all_bundles ++ bundles
       | Raise _ => all_bundles
       end)
    urls [].

(** ** Predicates of the further properties *)

(** The frame indices [i] in [k, k + n) with [i % rate == 0]. *)
Fixpoint sampled_from (rate k : Z) (n : nat) : list Z :=
  match n with
  | O => []
  | S n' =>
      if (k mod rate =? 0)%Z then k :: sampled_from rate (k + 1) n'
      else sampled_from rate (k + 1) n'
  end.

(** Highest score first. *)
Definition by_score_desc (a b : Segment Q) : Prop := score b <= score a.

(** What makes line 108 raise on an item whose [start_time] and [end_time]
    are numbers: one of the two is a [float] and the other an [int] that no
    [float] can hold. *)
Definition item_overflows (seg : pyval) : bool :=
  match seg with
  | VDict d =>
      match dict_lookup d "start_time", dict_lookup d "end_time" with
      | Some (VInt z), Some (VNum _) | Some (VNum _), Some (VInt z) =>
          float_overflows z
      | _, _ => false
      end
  | _ => false
  end.

(** [{"segments": [{"start_time": 0.5, "end_time": N}]}] with [N] the
    integer [10^309] written out in digits. *)
Definition overflowing_body : pyval :=
  VDict [("segments"%string,
          VList [VDict [("start_time"%string, VNum (1 # 2));
                        ("end_time"%string, VInt (10 ^ 309))]])].

(** What lines 105-111 build from a readable item. *)
Definition item_matches (item : pyval) (seg : Segment pyval) : Prop :=
  exists s e,
    (do v <- py_getitem item "start_time"; as_number v) = Ok s
    /\ (do v <- py_getitem item "end_time"; as_number v) = Ok e
    /\ py_get item "action_score" (VNum (1 # 2)) = Ok (score seg)
    /\ py_get item "confidence" (VNum (1 # 2)) = Ok (confidence seg)
    /\ start seg = s /\ end_ seg = e /\ duration seg = e - s.

(** * Properties *)

(** ** Comparisons *)

Lemma Qltb_lt a b : Qltb a b = true <-> a < b.
Proof.
  unfold Qltb. rewrite negb_true_iff, <- not_true_iff_false, Qle_bool_iff.
  split; [apply Qnot_le_lt | apply Qlt_not_le].
Qed.

Lemma Qltb_ge a b : Qltb a b = false <-> b <= a.
Proof. unfold Qltb. rewrite negb_false_iff. apply Qle_bool_iff. Qed.

(** ** Overlap resolution *)

Section Resolver.

Context {V : Type}.
Implicit Types (seg a b : Segment V) (segments acc : list (Segment V)).

Lemma overlaps_false a b : overlaps a b = false <-> ~ time_overlap a b.
Proof.
  unfold overlaps, time_overlap.
  rewrite negb_false_iff, orb_true_iff, !Qle_bool_iff.
  split.
  - intros [H|H] [H1 H2]; lra.
  - intros H. destruct (Qlt_le_dec (start b) (end_ a)) as [H1|H1]; [|now left].
    destruct (Qlt_le_dec (start a) (end_ b)) as [H2|H2]; [|now right].
    exfalso. apply H. split; assumption.
Qed.

Lemma time_overlap_sym a b : time_overlap a b -> time_overlap b a.
Proof. unfold time_overlap. tauto. Qed.

Lemma remove_overlapping_fold segments :
  _remove_overlapping_segments segments = fold_left resolve_step segments [].
Proof. destruct segments; reflexivity. Qed.

Lemma fold_resolve_sublist segments acc :
  exists kept,
    fold_left resolve_step segments acc = acc ++ kept
    /\ sublist kept segments.
Proof.
  revert acc. induction segments as [|seg segments IH]; intros acc; simpl.
  - exists []. split; [now rewrite app_nil_r | constructor].
  - unfold resolve_step at 2.
    destruct (existsb (overlaps seg) acc).
    + destruct (IH acc) as (kept & -> & Hs).
      exists kept. split; [reflexivity | now apply sublist_cons].
    + destruct (IH (acc ++ [seg])) as (kept & -> & Hs).
      exists (seg :: kept). split; [now rewrite <- app_assoc | now apply sublist_skip].
Qed.

Lemma pairwise_disjoint_nil : pairwise_disjoint (@nil (Segment V)).
Proof. intros i j a b _ H. now rewrite lookup_nil in H. Qed.

Lemma pairwise_disjoint_snoc acc seg :
  pairwise_disjoint acc ->
  existsb (overlaps seg) acc = false ->
  pairwise_disjoint (acc ++ [seg]).
Proof.
  intros Hacc Hnew i j a b Hij Hi Hj.
  assert (Hall : forall x, x ∈ acc -> ~ time_overlap seg x).
  { intros x Hx. apply overlaps_false.
    destruct (overlaps seg x) eqn:E; [|reflexivity].
    assert (existsb (overlaps seg) acc = true) as Hex.
    { apply existsb_exists. exists x. split; [now apply list_elem_of_In | exact E]. }
    congruence. }
  apply lookup_app_Some in Hi as [Hi|[Hli Hi]];
    apply lookup_app_Some in Hj as [Hj|[Hlj Hj]].
  - exact (Hacc i j a b Hij Hi Hj).
  - apply list_lookup_singleton_Some in Hj as [_ <-].
    intros Ho. apply (Hall a); [eapply list_elem_of_lookup_2; eauto|].
    now apply time_overlap_sym.
  - apply list_lookup_singleton_Some in Hi as [_ <-].
    apply Hall. eapply list_elem_of_lookup_2; eauto.
  - apply list_lookup_singleton_Some in Hi as [Hi _].
    apply list_lookup_singleton_Some in Hj as [Hj _]. lia.
Qed.

Lemma fold_resolve_disjoint segments acc :
  pairwise_disjoint acc ->
  pairwise_disjoint (fold_left resolve_step segments acc).
Proof.
  revert acc. induction segments as [|seg segments IH]; intros acc Hacc; simpl.
  - exact Hacc.
  - apply IH. unfold resolve_step.
    destruct (existsb (overlaps seg) acc) eqn:E; [exact Hacc|].
    now apply pairwise_disjoint_snoc.
Qed.

Lemma remove_overlapping_disjoint segments :
  pairwise_disjoint (_remove_overlapping_segments segments).
Proof.
  rewrite remove_overlapping_fold.
  apply fold_resolve_disjoint, pairwise_disjoint_nil.
Qed.

End Resolver.

Lemma pairwise_disjoint_to_dict (segments : list (Segment Q)) :
  pairwise_disjoint segments -> pairwise_disjoint (map to_dict segments).
Proof.
  intros H i j a b Hij Hi Hj.
  change (map to_dict segments) with (to_dict <$> segments) in Hi, Hj.
  rewrite list_lookup_fmap in Hi, Hj.
  destruct (segments !! i) as [a'|] eqn:Ea; [|discriminate].
  destruct (segments !! j) as [b'|] eqn:Eb; [|discriminate].
  simpl in Hi, Hj. injection Hi as <-. injection Hj as <-.
  exact (H i j a' b' Hij Ea Eb).
Qed.

Lemma Forall_sublist_of {A : Type} (P : A -> Prop) (l k : list A) :
  sublist l k -> Forall P k -> Forall P l.
Proof.
  induction 1 as [|x l k _ IH|x l k _ IH]; intros HP.
  - constructor.
  - inversion HP; subst. constructor; auto.
  - inversion HP; subst. auto.
Qed.

(** ** Sorting by score *)

Lemma insert_by_score_Forall (P : Segment Q -> Prop) x l :
  Forall P (insert_by_score x l) <-> P x /\ Forall P l.
Proof.
  induction l as [|y l IH]; simpl.
  - rewrite Forall_singleton. split; [intros H; split; [exact H | constructor] | tauto].
  - destruct (Qltb (score x) (score y)).
    + rewrite !Forall_cons, IH. tauto.
    + rewrite !Forall_cons. tauto.
Qed.

Lemma sorted_by_score_Forall (P : Segment Q -> Prop) l :
  Forall P (sorted_by_score l) <-> Forall P l.
Proof.
  induction l as [|x l IH]; simpl; [reflexivity|].
  rewrite insert_by_score_Forall, Forall_cons, IH. reflexivity.
Qed.

Lemma insert_by_score_head x l :
  head_is_max l -> head_is_max (insert_by_score x l).
Proof.
  destruct l as [|y l]; simpl.
  - intros _. constructor; [lra | constructor].
  - intros Hy. destruct (Qltb (score x) (score y)) eqn:E; simpl.
    + apply Qltb_lt in E. inversion Hy as [|? ? Hyy Hl]; subst.
      constructor; [lra|]. apply insert_by_score_Forall. split; [lra | exact Hl].
    + apply Qltb_ge in E. constructor; [lra|].
      eapply Forall_impl; [exact Hy|]. simpl. intros c Hc. lra.
Qed.

Lemma sorted_by_score_head l : head_is_max (sorted_by_score l).
Proof.
  induction l as [|x l IH]; simpl; [exact I | now apply insert_by_score_head].
Qed.

Lemma sorted_by_score_nil l : sorted_by_score l = [] -> l = [].
Proof.
  destruct l as [|x l]; [reflexivity|]. simpl.
  destruct (sorted_by_score l) as [|y k]; simpl; [discriminate|].
  destruct (Qltb (score x) (score y)); discriminate.
Qed.

Lemma remove_overlapping_sublist {V : Type} (segments : list (Segment V)) :
  sublist (_remove_overlapping_segments segments) segments.
Proof.
  rewrite remove_overlapping_fold.
  destruct (fold_resolve_sublist segments []) as (kept & -> & Hs). exact Hs.
Qed.

Lemma remove_overlapping_head {V : Type} (segments : list (Segment V)) :
  head (_remove_overlapping_segments segments) = head segments.
Proof.
  rewrite remove_overlapping_fold.
  destruct segments as [|seg segments]; [reflexivity|]. simpl.
  unfold resolve_step at 2. simpl.
  destruct (fold_resolve_sublist segments [seg]) as (kept & -> & _).
  reflexivity.
Qed.

(** C10. The overlap resolver returns a subsequence of its input: every
    segment it returns is an element of the input, unchanged and in the
    input's order, and the first segment of a non-empty input is always the
    first segment of the output.  After the stable descending sort of
    [_extract_segments_from_scores] that first segment scores at least as
    high as every candidate. *)
Theorem remove_overlapping_subsequence (V : Type) (segments : list (Segment V))
  (candidates : list (Segment Q)) :
  sublist (_remove_overlapping_segments segments) segments
  /\ head (_remove_overlapping_segments segments) = head segments
  /\ match head (_remove_overlapping_segments (sorted_by_score candidates)) with
     | Some h => Forall (fun c => score c <= score h) candidates
     | None => candidates = []
     end.
Proof.
  split; [|split].
  - apply remove_overlapping_sublist.
  - apply remove_overlapping_head.
  - rewrite remove_overlapping_head.
    pose proof (sorted_by_score_head candidates) as Hmax.
    destruct (sorted_by_score candidates) as [|h k] eqn:E; simpl.
    + now apply sorted_by_score_nil.
    + simpl in Hmax. rewrite <- E in Hmax.
      exact (proj1 (sorted_by_score_Forall _ _) Hmax).
Qed.

(** ** [range] and slices *)

Lemma ceil_div_lt (x step k : Z) :
  (0 < step)%Z -> (k < (x + step - 1) / step <-> k * step < x)%Z.
Proof.
  intros Hs.
  pose proof (Z.div_mod (x + step - 1) step ltac:(lia)) as Hdm.
  pose proof (Z.mod_pos_bound (x + step - 1) step Hs) as Hb.
  set (q := ((x + step - 1) / step)%Z) in *.
  set (r := ((x + step - 1) mod step)%Z) in *.
  split; intros H; nia.
Qed.

(** The indices [range(start, stop, step)] yields. *)
Lemma py_range_In (start stop step : Z) (idxs : list Z) :
  py_range start stop step = Ok idxs ->
  forall i,
    In i idxs <->
    exists k, (0 <= k)%Z /\ i = (start + k * step)%Z
              /\ (if (0 <? step)%Z then i < stop else stop < i)%Z.
Proof.
  unfold py_range. destruct (step =? 0)%Z eqn:E0; [discriminate|].
  apply Z.eqb_neq in E0. intros [= <-] i. rewrite in_map_iff. split.
  - intros (k & <- & Hk). apply in_seq in Hk. exists (Z.of_nat k).
    split; [lia|]. split; [reflexivity|].
    destruct (0 <? step)%Z eqn:Ep.
    + apply Z.ltb_lt in Ep.
      assert (Z.of_nat k < (stop - start + step - 1) / step)%Z as Hlt by lia.
      apply ceil_div_lt in Hlt; lia.
    + apply Z.ltb_ge in Ep.
      assert (Z.of_nat k < (start - stop + (- step) - 1) / (- step))%Z as Hlt.
      { replace (start - stop + - step - 1)%Z with (start - stop - step - 1)%Z by lia.
        lia. }
      apply ceil_div_lt in Hlt; lia.
  - intros (k & Hk & -> & Hb). exists (Z.to_nat k).
    split; [f_equal; lia|]. apply in_seq. split; [lia|]. simpl.
    destruct (0 <? step)%Z eqn:Ep.
    + apply Z.ltb_lt in Ep.
      assert (k < (stop - start + step - 1) / step)%Z
        by (apply ceil_div_lt; lia).
      lia.
    + apply Z.ltb_ge in Ep.
      assert (k < (start - stop + (- step) - 1) / (- step))%Z as Hlt
        by (apply ceil_div_lt; lia).
      replace (start - stop + - step - 1)%Z with (start - stop - step - 1)%Z
        in Hlt by lia.
      lia.
Qed.

Lemma py_range_nil (start stop step : Z) (idxs : list Z) :
  py_range start stop step = Ok idxs ->
  (if (0 <? step)%Z then stop <= start else start <= stop)%Z ->
  idxs = [].
Proof.
  intros Hr Hb. destruct idxs as [|i idxs]; [reflexivity|]. exfalso.
  destruct (proj1 (py_range_In _ _ _ _ Hr i) (or_introl eq_refl))
    as (k & Hk & -> & Hlt).
  destruct (0 <? step)%Z eqn:Ep.
  - apply Z.ltb_lt in Ep. nia.
  - apply Z.ltb_ge in Ep. nia.
Qed.

Lemma py_slice_length {A : Type} (l : list A) (i w : Z) :
  (0 <= i)%Z -> (0 <= w)%Z -> (i + w <= Z.of_nat (length l))%Z ->
  length (py_slice l i (i + w)) = Z.to_nat w.
Proof.
  intros Hi Hw Hn. unfold py_slice, slice_bound.
  destruct (i <? 0)%Z eqn:E1; [apply Z.ltb_lt in E1; lia|].
  destruct (i + w <? 0)%Z eqn:E2; [apply Z.ltb_lt in E2; lia|].
  rewrite length_take, length_drop. lia.
Qed.

Lemma py_first_ok {A : Type} (l : list A) :
  l <> [] -> exists x, py_first l = Ok x.
Proof. destruct l as [|x l]; [congruence | simpl; eauto]. Qed.

Lemma py_last_ok {A : Type} (l : list A) :
  l <> [] -> exists x, py_last l = Ok x.
Proof.
  intros H. unfold py_last. destruct (last l) as [x|] eqn:E; [eauto|].
  apply last_None in E. congruence.
Qed.

(** ** Normalisation *)

Lemma fold_max_spec (l : list Q) (x : Q) :
  let r := fold_left (fun acc y => if Qltb acc y then y else acc) l x in
  In r (x :: l) /\ x <= r /\ Forall (fun y => y <= r) l.
Proof.
  revert x. induction l as [|y l IH]; intros x; simpl.
  - split; [now left|]. split; [lra | constructor].
  - destruct (IH (if Qltb x y then y else x)) as (Hin & Hle & Hall).
    destruct (Qltb x y) eqn:E.
    + apply Qltb_lt in E. split; [now right|]. split; [lra|].
      constructor; assumption.
    + apply Qltb_ge in E. split; [|split; [exact Hle|]].
      * destruct Hin as [<-|Hin]; [now left | now right; right].
      * constructor; [lra | assumption].
Qed.

Lemma fold_min_spec (l : list Q) (x : Q) :
  let r := fold_left (fun acc y => if Qltb y acc then y else acc) l x in
  In r (x :: l) /\ r <= x /\ Forall (fun y => r <= y) l.
Proof.
  revert x. induction l as [|y l IH]; intros x; simpl.
  - split; [now left|]. split; [lra | constructor].
  - destruct (IH (if Qltb y x then y else x)) as (Hin & Hle & Hall).
    destruct (Qltb y x) eqn:E.
    + apply Qltb_lt in E. split; [now right|]. split; [lra|].
      constructor; assumption.
    + apply Qltb_ge in E. split; [|split; [exact Hle|]].
      * destruct Hin as [<-|Hin]; [now left | now right; right].
      * constructor; [lra | assumption].
Qed.

Lemma score_range_pos (hi lo : Q) : 0 < score_range hi lo.
Proof.
  unfold score_range. destruct (Qltb lo hi) eqn:E; [|lra].
  apply Qltb_lt in E. lra.
Qed.

Lemma normalized_bounds (x lo hi : Q) :
  lo <= x <= hi ->
  0 <= (x - lo) / score_range hi lo <= 1
  /\ (x == lo -> (x - lo) / score_range hi lo == 0)
  /\ (lo < hi -> x == hi -> (x - lo) / score_range hi lo == 1)
  /\ (hi == lo -> (x - lo) / score_range hi lo == 0).
Proof.
  intros [Hlo Hhi]. pose proof (score_range_pos hi lo) as Hpos.
  assert (Hr : score_range hi lo == hi - lo \/ (hi == lo /\ score_range hi lo == 1)).
  { unfold score_range. destruct (Qltb lo hi) eqn:E; [left; reflexivity|].
    apply Qltb_ge in E. right. split; [lra | reflexivity]. }
  split; [split|split; [|split]].
  - apply Qle_shift_div_l; [exact Hpos | lra].
  - apply Qle_shift_div_r; [exact Hpos|]. destruct Hr as [->|[He ->]]; lra.
  - intros E. assert (Hz : x - lo == 0) by lra. rewrite Hz.
    unfold Qdiv. ring.
  - intros Hlt E. destruct Hr as [Hr|[He _]]; [|lra].
    rewrite Hr. assert (Hz : x - lo == hi - lo) by lra. rewrite Hz.
    field. lra.
  - intros E. assert (Hz : x - lo == 0) by lra. rewrite Hz.
    unfold Qdiv. ring.
Qed.

(** C5. For a non-empty sequence of raw scores with minimum [lo] and maximum
    [hi], the normalized score of every sample is [(raw - lo) / (hi - lo)],
    the denominator being 1 when [hi] is not above [lo]; it lies in [0, 1];
    a sample of the minimal score gets 0, a sample of the maximal score gets
    1 when the scores are not all equal, and when they are all equal every
    sample gets 0. *)
Theorem normalization_unit_interval (m : Motion.t) (ms : list Motion.t) :
  let scores := map Motion.score (m :: ms) in
  exists lo hi,
    py_min scores = Ok lo /\ py_max scores = Ok hi
    /\ In lo scores /\ In hi scores
    /\ Forall (fun x => lo <= x <= hi) scores
    /\ returns (normalize_scores (m :: ms)) (fun normalized =>
         map sample normalized = m :: ms
         /\ Forall (fun n =>
              let raw := Motion.score (sample n) in
              normalized_score n
              == (raw - lo) / (if Qltb lo hi then hi - lo else 1)
              /\ 0 <= normalized_score n <= 1
              /\ (raw == lo -> normalized_score n == 0)
              /\ (lo < hi -> raw == hi -> normalized_score n == 1)
              /\ (Forall (fun x => x == Motion.score m) scores ->
                  normalized_score n == 0))
              normalized).
Proof.
  intros scores. unfold normalize_scores. fold scores.
  unfold scores at 1 2 6 7. simpl py_min. simpl py_max.
  destruct (fold_min_spec (map Motion.score ms) (Motion.score m))
    as (Hlin & Hlx & Hlall).
  destruct (fold_max_spec (map Motion.score ms) (Motion.score m))
    as (Hhin & Hhx & Hhall).
  set (lo := fold_left _ (map Motion.score ms) (Motion.score m)) in *.
  set (hi := fold_left (fun acc y => if Qltb acc y then y else acc)
               (map Motion.score ms) (Motion.score m)) in *.
  exists lo, hi.
  assert (Hall : Forall (fun x => lo <= x <= hi) scores).
  { unfold scores. simpl. constructor; [lra|].
    apply List.Forall_forall. intros x Hx.
    rewrite List.Forall_forall in Hlall, Hhall.
    split; [apply Hlall | apply Hhall]; exact Hx. }
  repeat (split; [first [reflexivity | assumption]|]).
  simpl. split.
  - rewrite map_map. simpl. f_equal. apply map_id.
  - assert (Hraw : Forall (fun x : Motion.t => lo <= Motion.score x <= hi) (m :: ms)).
    { unfold scores in Hall. now apply Forall_map in Hall. }
    change (Forall
      (fun n => normalized_score n
                == (Motion.score (sample n) - lo) / score_range hi lo
         /\ 0 <= normalized_score n <= 1
         /\ (Motion.score (sample n) == lo -> normalized_score n == 0)
         /\ (lo < hi -> Motion.score (sample n) == hi -> normalized_score n == 1)
         /\ (Forall (fun x => x == Motion.score m) scores ->
             normalized_score n == 0))
      (map (fun x => mkNormalized x ((Motion.score x - lo) / score_range hi lo))
         (m :: ms))).
    apply Forall_map. eapply Forall_impl; [exact Hraw|].
    simpl. intros x Hx.
    destruct (normalized_bounds _ _ _ Hx) as (Hb & H0 & H1 & Heq).
    split; [reflexivity|]. repeat split; try tauto.
    intros Hsame. apply Heq.
    rewrite List.Forall_forall in Hsame.
    rewrite (Hsame lo Hlin), (Hsame hi Hhin). reflexivity.
Qed.

(** ** The sliding window *)

Lemma div2_pos (w : Z) : (0 < w / 2)%Z -> (2 <= w)%Z.
Proof.
  intros H. pose proof (Z.div_mod w 2 ltac:(lia)).
  pose proof (Z.mod_pos_bound w 2 ltac:(lia)). lia.
Qed.

Lemma div2_neg (w : Z) : (w / 2 < 0)%Z -> (w < 0)%Z.
Proof.
  intros H. pose proof (Z.div_mod w 2 ltac:(lia)).
  pose proof (Z.mod_pos_bound w 2 ltac:(lia)). lia.
Qed.

(** Every index the loop visits starts a full window of [window_size >= 2]
    samples that ends before the last sample. *)
Lemma visited_window (ms : list Normalized) (window_size : Z) (idxs : list Z) i :
  py_range 0 (Z.of_nat (length ms) - window_size) (step_size_of window_size)
  = Ok idxs ->
  In i idxs ->
  (2 <= window_size)%Z /\ (0 <= i)%Z
  /\ (i + window_size < Z.of_nat (length ms))%Z
  /\ length (window_at ms window_size i) = Z.to_nat window_size.
Proof.
  intros Hr Hi.
  apply (py_range_In _ _ _ _ Hr) in Hi as (k & Hk & -> & Hb).
  unfold step_size_of in *.
  destruct (0 <? window_size / 2)%Z eqn:Ep.
  - apply Z.ltb_lt in Ep. pose proof (div2_pos _ Ep).
    assert (0 <= k * (window_size / 2))%Z by nia.
    repeat split; try lia.
    unfold window_at. apply py_slice_length; lia.
  - apply Z.ltb_ge in Ep.
    assert (window_size / 2 <> 0)%Z as Hne.
    { intros E. unfold py_range in Hr. rewrite E in Hr. discriminate. }
    assert (window_size < 0)%Z by (apply div2_neg; lia).
    exfalso. nia.
Qed.

Lemma clamp_window_ok (ms window : list Normalized) (avg : Q) :
  window <> [] -> ms <> [] -> exists seg, clamp_window ms window avg = Ok seg.
Proof.
  intros Hw Hm. unfold clamp_window, extend_window.
  destruct (py_first_ok window Hw) as (f & ->).
  destruct (py_last_ok window Hw) as (l & ->).
  destruct (py_last_ok ms Hm) as (m & ->). simpl.
  destruct (Qltb _ _); simpl; eauto.
Qed.

Lemma visited_window_clamps (ms : list Normalized) (window_size : Z) idxs i avg :
  py_range 0 (Z.of_nat (length ms) - window_size) (step_size_of window_size)
  = Ok idxs ->
  In i idxs ->
  exists seg, clamp_window ms (window_at ms window_size i) avg = Ok seg.
Proof.
  intros Hr Hi.
  destruct (visited_window ms window_size idxs i Hr Hi) as (Hw & Hi0 & Hlt & Hlen).
  apply clamp_window_ok.
  - intros E. rewrite E in Hlen. simpl in Hlen. lia.
  - intros E. rewrite E in Hlt. simpl in Hlt. lia.
Qed.

Lemma window_step_eq (ms : list Normalized) (threshold : Q)
  (window_size i : Z) (acc : list (Segment Q)) :
  (exists seg,
     clamp_window ms (window_at ms window_size i)
       (window_avg (window_at ms window_size i)) = Ok seg) ->
  window_step ms threshold window_size acc i
  = Ok (acc ++ if is_candidate ms threshold window_size i
               then window_segments ms window_size i else []).
Proof.
  intros (seg & Hseg). unfold window_step, is_candidate, window_segments.
  rewrite Hseg. destruct (Qltb threshold _); simpl; [reflexivity|].
  now rewrite app_nil_r.
Qed.

(** The loop appends, in the order of the visited indices, the segments of
    the windows that pass the threshold test. *)
Lemma for_each_window_step (ms : list Normalized) (threshold : Q)
  (window_size : Z) (idxs : list Z) (acc : list (Segment Q)) :
  (forall i avg, In i idxs ->
     exists seg, clamp_window ms (window_at ms window_size i) avg = Ok seg) ->
  for_each (window_step ms threshold window_size) idxs acc
  = Ok (acc ++ flat_map (window_segments ms window_size)
                  (List.filter (is_candidate ms threshold window_size) idxs)).
Proof.
  revert acc. induction idxs as [|i idxs IH]; intros acc Hok.
  - simpl. now rewrite app_nil_r.
  - cbn [for_each List.filter].
    rewrite window_step_eq by (apply Hok; now left).
    cbn [rbind]. rewrite IH by (intros; apply Hok; now right).
    destruct (is_candidate ms threshold window_size i); cbn [flat_map].
    + now rewrite <- app_assoc.
    + now rewrite app_nil_r.
Qed.

Lemma accept_window_cases (s e avg : Q) :
  (e - s < inject_Z MIN_CLIP_LENGTH -> accept_window s e avg = None)
  /\ (inject_Z MAX_CLIP_LENGTH < e - s -> accept_window s e avg = None)
  /\ (inject_Z MIN_CLIP_LENGTH <= e - s <= inject_Z MAX_CLIP_LENGTH ->
      accept_window s e avg
      = Some (mkSegment s e (e - s) avg (py_min2 1 (avg * (3 # 2))))).
Proof.
  unfold accept_window. split; [|split].
  - intros H. destruct (Qle_bool (inject_Z MIN_CLIP_LENGTH) (e - s)) eqn:E;
      [|reflexivity].
    apply Qle_bool_iff in E. lra.
  - intros H. destruct (Qle_bool (e - s) (inject_Z MAX_CLIP_LENGTH)) eqn:E;
      [|now rewrite andb_false_r].
    apply Qle_bool_iff in E. lra.
  - intros [H1 H2]. apply Qle_bool_iff in H1, H2. now rewrite H1, H2.
Qed.

Lemma accept_window_limits (s e avg : Q) (seg : Segment Q) :
  accept_window s e avg = Some seg -> within_limits seg.
Proof.
  unfold accept_window.
  destruct (Qle_bool (inject_Z MIN_CLIP_LENGTH) (e - s)) eqn:E1; [|discriminate].
  destruct (Qle_bool (e - s) (inject_Z MAX_CLIP_LENGTH)) eqn:E2; [|discriminate].
  simpl. intros [= <-]. apply Qle_bool_iff in E1, E2.
  unfold within_limits. simpl. repeat split; first [assumption | reflexivity].
Qed.

Lemma window_segments_limits (ms : list Normalized) (window_size i : Z) :
  Forall within_limits (window_segments ms window_size i).
Proof.
  unfold window_segments, clamp_window.
  destruct (py_first _); simpl; [|constructor].
  destruct (py_last _); simpl; [|constructor].
  destruct (extend_window _ _ _) as [[s e]|]; simpl; [|constructor].
  destruct (accept_window s e _) as [seg|] eqn:E; simpl; constructor;
    [|constructor].
  eapply accept_window_limits; eauto.
Qed.

Lemma window_segments_avg (ms : list Normalized) (window_size i : Z) :
  Forall (fun seg => score seg = window_avg (window_at ms window_size i))
    (window_segments ms window_size i).
Proof.
  unfold window_segments, clamp_window.
  destruct (py_first _); simpl; [|constructor].
  destruct (py_last _); simpl; [|constructor].
  destruct (extend_window _ _ _) as [[s e]|]; simpl; [|constructor].
  unfold accept_window. destruct (_ && _); simpl; constructor; [|constructor].
  reflexivity.
Qed.

(** A window that lies within the sequence is the run of [window_size]
    samples from position [i] on, and its average is the sum of their
    normalized scores over [window_size]. *)
Lemma window_at_run (ms : list Normalized) (window_size i : Z) :
  (0 <= i)%Z -> (0 <= window_size)%Z ->
  (i + window_size <= Z.of_nat (length ms))%Z ->
  window_at ms window_size i
  = take (Z.to_nat window_size) (drop (Z.to_nat i) ms).
Proof.
  intros Hi Hw Hn. unfold window_at, py_slice, slice_bound.
  destruct (i <? 0)%Z eqn:E1; [apply Z.ltb_lt in E1; lia|].
  destruct (i + window_size <? 0)%Z eqn:E2; [apply Z.ltb_lt in E2; lia|].
  rewrite !Z.min_l by lia.
  now replace (i + window_size - i)%Z with window_size by lia.
Qed.

Lemma window_avg_run (ms : list Normalized) (window_size i : Z) :
  (0 <= i)%Z -> (0 <= window_size)%Z ->
  (i + window_size <= Z.of_nat (length ms))%Z ->
  window_avg (window_at ms window_size i)
  = fold_right Qplus 0
      (map normalized_score
         (take (Z.to_nat window_size) (drop (Z.to_nat i) ms)))
    / inject_Z window_size.
Proof.
  intros Hi Hw Hn.
  assert (Hlen : length (window_at ms window_size i) = Z.to_nat window_size)
    by (apply py_slice_length; assumption).
  unfold window_avg, np_mean, Qsum.
  rewrite length_map, Hlen, Z2Nat.id by exact Hw.
  now rewrite window_at_run.
Qed.

Lemma square_nonneg (a : Q) : 0 <= a * a.
Proof. unfold Qle. simpl. nia. Qed.

Lemma total_nonneg (xs : list Q) :
  Forall (fun x => 0 <= x) xs -> 0 <= fold_right Qplus 0 xs.
Proof.
  induction 1 as [|x xs Hx _ IH]; simpl; [apply Qle_refl | lra].
Qed.

(** The variance is not negative. *)
Lemma np_var_nonneg (xs : list Q) : 0 <= np_var xs.
Proof.
  unfold np_var, np_mean at 1, Qsum, Qdiv.
  apply Qmult_le_0_compat.
  - apply total_nonneg, Forall_map, List.Forall_forall. intros x _.
    apply square_nonneg.
  - apply Qinv_le_0_compat. change 0 with (inject_Z 0).
    rewrite <- Zle_Qle. lia.
Qed.

Section Windows.

Variable np_sqrt : Q -> Q.
Variable self : VideoProcessor.

Lemma collect_segments_eq (ms : list Normalized) (fps : Q) (d : Z) :
  collect_segments np_sqrt self ms fps d
  = (do window_size <- window_size_of self fps d;
     do idxs <- py_range 0 (Z.of_nat (length ms) - window_size)
                  (step_size_of window_size);
     Ok (flat_map (window_segments ms window_size)
           (List.filter (is_candidate ms (threshold_of np_sqrt ms) window_size)
              idxs))).
Proof.
  unfold collect_segments.
  destruct (window_size_of self fps d) as [ws|e]; simpl; [|reflexivity].
  destruct (py_range _ _ _) as [idxs|e] eqn:Hr; simpl; [|reflexivity].
  rewrite for_each_window_step; [reflexivity|].
  intros i avg Hi. eapply visited_window_clamps; eauto.
Qed.

(** C6. The acceptance threshold is the mean of all normalized scores plus
    half their standard deviation, computed once from the whole sequence:
    the mean is the sum of the scores over their number, the standard
    deviation is the square root of the variance, and the variance, which
    is never negative, is the sum of the squared deviations from the mean
    over the number of scores; with a square root that is never negative
    the threshold is at least the mean.  The window the loop visits at
    index [i] is the run of [window_size] samples from [i] on, its average
    is the sum of their normalized scores over [window_size], and every
    segment it gives carries that average as its score.  The loop appends
    the segments of exactly those visited windows whose average is strictly
    greater than the threshold, so every candidate segment scores strictly
    above it. *)
Theorem threshold_and_candidates (ms : list Normalized) (fps : Q) (d : Z) :
  let total := fold_right Qplus 0 in
  let scores := map normalized_score ms in
  let count := inject_Z (Z.of_nat (length ms)) in
  let mean := total scores / count in
  let variance :=
    total (map (fun x => (x - mean) * (x - mean)) scores) / count in
  let threshold := mean + np_sqrt variance * (1 # 2) in
  let average window_size i :=
    total (map normalized_score
             (take (Z.to_nat window_size) (drop (Z.to_nat i) ms)))
    / inject_Z window_size in
  np_mean scores = mean
  /\ np_var scores = variance
  /\ 0 <= variance
  /\ threshold_of np_sqrt ms = threshold
  /\ ((forall x, 0 <= np_sqrt x) -> mean <= threshold)
  /\ (forall window_size idxs i,
        window_size_of self fps d = Ok window_size ->
        py_range 0 (Z.of_nat (length ms) - window_size)
          (step_size_of window_size)
        = Ok idxs ->
        In i idxs ->
        window_at ms window_size i
        = take (Z.to_nat window_size) (drop (Z.to_nat i) ms)
        /\ window_avg (window_at ms window_size i) = average window_size i
        /\ Forall (fun seg => score seg = average window_size i)
             (window_segments ms window_size i))
  /\ collect_segments np_sqrt self ms fps d
     = (do window_size <- window_size_of self fps d;
        do idxs <- py_range 0 (Z.of_nat (length ms) - window_size)
                     (step_size_of window_size);
        Ok (flat_map (window_segments ms window_size)
              (List.filter (fun i => Qltb threshold (average window_size i))
                 idxs)))
  /\ match collect_segments np_sqrt self ms fps d with
     | Ok candidates => Forall (fun seg => threshold < score seg) candidates
     | Raise _ => True
     end.
Proof.
  intros total scores count mean variance threshold average.
  assert (Hmean : np_mean scores = mean).
  { unfold np_mean, mean, count, scores, Qsum. now rewrite length_map. }
  assert (Hvar : np_var scores = variance).
  { unfold np_var. rewrite Hmean.
    unfold np_mean, variance, count, scores, Qsum. now rewrite !length_map. }
  assert (Hthr : threshold_of np_sqrt ms = threshold).
  { unfold threshold_of. fold scores. unfold np_std.
    now rewrite Hmean, Hvar. }
  assert (Hwin : forall window_size idxs i,
             py_range 0 (Z.of_nat (length ms) - window_size)
               (step_size_of window_size)
             = Ok idxs ->
             In i idxs ->
             window_at ms window_size i
             = take (Z.to_nat window_size) (drop (Z.to_nat i) ms)
             /\ window_avg (window_at ms window_size i)
                = average window_size i).
  { intros ws idxs i Hr Hi.
    destruct (visited_window ms ws idxs i Hr Hi) as (Hw & Hi0 & Hlt & _).
    split; [apply window_at_run | apply window_avg_run]; lia. }
  split; [exact Hmean|]. split; [exact Hvar|].
  split; [rewrite <- Hvar; apply np_var_nonneg|].
  split; [exact Hthr|]. split; [|split; [|split]].
  - intros Hsqrt. unfold threshold. specialize (Hsqrt variance). lra.
  - intros ws idxs i _ Hr Hi.
    destruct (Hwin ws idxs i Hr Hi) as (Hat & Havg).
    split; [exact Hat|]. split; [exact Havg|].
    rewrite <- Havg. apply window_segments_avg.
  - rewrite collect_segments_eq.
    destruct (window_size_of self fps d) as [ws|e]; simpl; [|reflexivity].
    destruct (py_range _ _ _) as [idxs|e] eqn:Hr; simpl; [|reflexivity].
    f_equal. f_equal. apply filter_ext_in. intros i Hi.
    unfold is_candidate. rewrite Hthr.
    now destruct (Hwin ws idxs i Hr Hi) as (_ & ->).
  - rewrite collect_segments_eq.
    destruct (window_size_of self fps d) as [ws|e]; simpl; [|exact I].
    destruct (py_range _ _ _) as [idxs|e]; simpl; [|exact I].
    apply Forall_flat_map. apply List.Forall_forall. intros i Hi.
    apply filter_In in Hi as [_ Hc]. unfold is_candidate in Hc.
    rewrite Hthr in Hc. apply Qltb_lt in Hc.
    eapply Forall_impl; [apply window_segments_avg|].
    simpl. intros seg Hs. rewrite Hs. exact Hc.
Qed.

Lemma window_size_of_eq (fps : Q) (d ws : Z) :
  window_size_of self fps d = Ok ws ->
  frame_sample_rate self <> 0%Z
  /\ ws = py_int (fps * inject_Z d / inject_Z (frame_sample_rate self)).
Proof.
  unfold window_size_of, py_div.
  destruct (Qeq_bool (inject_Z (frame_sample_rate self)) 0) eqn:E; simpl;
    [discriminate|].
  intros [= <-]. split; [|reflexivity].
  intros H. rewrite H in E. discriminate.
Qed.

(** C3. The window length is [int(fps * T / s)], the quotient truncated
    toward zero, and the step is [window_length // 2].  The loop runs over
    the indices of [range(0, len(samples) - window_length, step)]: these are
    multiples of the step, each of them starting a window that fits in the
    sample sequence, and every multiple [i] of the step with
    [i + window_length < len(samples)] is among them. *)
Theorem window_schedule (ms : list Normalized) (fps : Q) (d ws : Z)
  (idxs : list Z) :
  window_size_of self fps d = Ok ws ->
  py_range 0 (Z.of_nat (length ms) - ws) (step_size_of ws) = Ok idxs ->
  ws = py_int (fps * inject_Z d / inject_Z (frame_sample_rate self))
  /\ step_size_of ws = (ws / 2)%Z
  /\ collect_segments np_sqrt self ms fps d
     = for_each (window_step ms (threshold_of np_sqrt ms) ws) idxs []
  /\ (forall i, In i idxs ->
        exists k, (0 <= k)%Z /\ i = (k * step_size_of ws)%Z
                  /\ (0 <= i)%Z /\ (i + ws <= Z.of_nat (length ms))%Z)
  /\ (forall k, (2 <= ws)%Z -> (0 <= k)%Z ->
        (k * step_size_of ws + ws < Z.of_nat (length ms))%Z ->
        In (k * step_size_of ws)%Z idxs).
Proof.
  intros Hw Hr.
  assert (Hc : collect_segments np_sqrt self ms fps d
               = for_each (window_step ms (threshold_of np_sqrt ms) ws) idxs []).
  { unfold collect_segments. rewrite Hw. simpl. rewrite Hr. reflexivity. }
  apply window_size_of_eq in Hw as [_ Hw].
  split; [exact Hw|]. split; [reflexivity|]. split; [exact Hc|]. split.
  - intros i Hi.
    destruct (proj1 (py_range_In _ _ _ _ Hr i) Hi) as (k & Hk & Hik & Hb).
    exists k. split; [exact Hk|]. split; [lia|].
    unfold step_size_of in *.
    destruct (0 <? ws / 2)%Z eqn:Ep.
    + apply Z.ltb_lt in Ep. nia.
    + apply Z.ltb_ge in Ep.
      assert (ws / 2 <> 0)%Z as Hne.
      { intros E. unfold py_range in Hr. rewrite E in Hr. discriminate. }
      assert (ws < 0)%Z by (apply div2_neg; lia).
      nia.
  - intros k Hws Hk Hlt. apply (py_range_In _ _ _ _ Hr).
    exists k. split; [exact Hk|]. split; [lia|].
    unfold step_size_of in *.
    assert (0 < ws / 2)%Z as Hpos.
    { pose proof (Z.div_mod ws 2 ltac:(lia)).
      pose proof (Z.mod_pos_bound ws 2 ltac:(lia)). lia. }
    apply Z.ltb_lt in Hpos. rewrite Hpos. lia.
Qed.

(** With a step that is not positive the loop body never runs: the step is
    zero and [range] raises, or it is negative and [range] is empty. *)
Lemma collect_segments_no_step (ms : list Normalized) (fps : Q) (d ws : Z) :
  window_size_of self fps d = Ok ws ->
  (step_size_of ws <= 0)%Z ->
  collect_segments np_sqrt self ms fps d
  = if (step_size_of ws =? 0)%Z then Raise ValueError else Ok [].
Proof.
  intros Hw Hs. rewrite collect_segments_eq, Hw. simpl.
  destruct (step_size_of ws =? 0)%Z eqn:E0.
  - apply Z.eqb_eq in E0. unfold py_range. rewrite E0. reflexivity.
  - apply Z.eqb_neq in E0.
    destruct (py_range _ _ _) as [idxs|e] eqn:Hr.
    + simpl. rewrite (py_range_nil _ _ _ _ Hr); [reflexivity|].
      assert ((0 <? step_size_of ws)%Z = false) as -> by (apply Z.ltb_ge; lia).
      assert (ws < 0)%Z by (apply div2_neg; unfold step_size_of in *; lia).
      lia.
    + exfalso. unfold py_range in Hr.
      apply Z.eqb_neq in E0. rewrite E0 in Hr. discriminate.
Qed.

(** When no visited window passes the threshold nothing is appended. *)
Lemma collect_segments_no_candidate (ms : list Normalized) (fps : Q)
  (d ws : Z) (idxs : list Z) :
  window_size_of self fps d = Ok ws ->
  py_range 0 (Z.of_nat (length ms) - ws) (step_size_of ws) = Ok idxs ->
  (forall i, In i idxs -> is_candidate ms (threshold_of np_sqrt ms) ws i = false) ->
  collect_segments np_sqrt self ms fps d = Ok [].
Proof.
  intros Hw Hr Hno. rewrite collect_segments_eq, Hw. simpl. rewrite Hr. simpl.
  f_equal.
  assert (List.filter (is_candidate ms (threshold_of np_sqrt ms) ws) idxs = [])
    as ->; [|reflexivity].
  clear Hr. induction idxs as [|i idxs IH]; [reflexivity|]. simpl.
  rewrite (Hno i (or_introl eq_refl)). apply IH.
  intros j Hj. apply Hno. now right.
Qed.

(** With at most one sample no window is visited. *)
Lemma collect_segments_short (ms : list Normalized) (fps : Q) (d : Z) :
  (length ms <= 1)%nat ->
  match collect_segments np_sqrt self ms fps d with
  | Ok candidates => candidates = []
  | Raise _ => True
  end.
Proof.
  intros Hn. rewrite collect_segments_eq.
  destruct (window_size_of self fps d) as [ws|e]; simpl; [|exact I].
  destruct (py_range _ _ _) as [idxs|e] eqn:Hr; simpl; [|exact I].
  rewrite (py_range_nil _ _ _ _ Hr); [reflexivity|].
  destruct (0 <? step_size_of ws)%Z eqn:Ep.
  - apply Z.ltb_lt in Ep. pose proof (div2_pos _ Ep). lia.
  - apply Z.ltb_ge in Ep.
    assert (step_size_of ws <> 0)%Z as Hne.
    { intros E. unfold py_range in Hr. rewrite E in Hr. discriminate. }
    assert (ws < 0)%Z by (apply div2_neg; unfold step_size_of in *; lia).
    lia.
Qed.

End Windows.

(** ** Reading the remote response *)

Lemma as_number_ok (v : pyval) :
  is_number v = true -> exists q, as_number v = Ok q.
Proof. destruct v; simpl; try discriminate; eauto. Qed.

Lemma as_number_raise (v : pyval) :
  is_number v = false -> as_number v = Raise TypeError.
Proof. destruct v; simpl; try discriminate; reflexivity. Qed.

Lemma py_sub_raise (a b : pyval) :
  is_number a && is_number b = false -> py_sub a b = Raise TypeError.
Proof.
  unfold py_sub. destruct (is_number a) eqn:Ea; simpl.
  - intros Eb. destruct (as_number_ok a Ea) as (x & ->). simpl.
    now rewrite (as_number_raise b Eb).
  - intros _. now rewrite (as_number_raise a Ea).
Qed.

Lemma remote_item_unreadable (segments : list (Segment pyval)) (seg : pyval) :
  item_unreadable seg = true -> exists e, remote_item segments seg = Raise e.
Proof.
  unfold item_unreadable, remote_item, py_getitem.
  destruct seg as [| | | | | |d]; simpl; eauto.
  destruct (dict_lookup d "start_time") as [sv|]; simpl; eauto.
  destruct (dict_lookup d "end_time") as [ev|]; simpl; eauto.
  intros H. apply negb_true_iff in H. rewrite andb_comm in H.
  rewrite (py_sub_raise ev sv H). simpl. eauto.
Qed.

(** One unreadable item makes the whole loop raise, whatever was appended
    before it. *)
Lemma for_each_remote_unreadable (items : list pyval)
  (acc : list (Segment pyval)) :
  existsb item_unreadable items = true ->
  exists e, for_each remote_item items acc = Raise e.
Proof.
  revert acc. induction items as [|seg items IH]; intros acc; simpl;
    [discriminate|].
  destruct (item_unreadable seg) eqn:Eu; simpl.
  - intros _. destruct (remote_item_unreadable acc seg Eu) as (e & ->).
    simpl. eauto.
  - intros H. destruct (remote_item acc seg) as [acc'|e]; simpl; eauto.
Qed.

Lemma parse_response_unreadable (response : Response) :
  response_unreadable response = true ->
  exists e, parse_response response = Raise e.
Proof.
  unfold response_unreadable, parse_response.
  destruct (json response) as [body|e]; simpl; eauto.
  destruct body as [| | | | | |d]; simpl; eauto.
  destruct (dict_lookup d "segments") as [listed|]; simpl; [|discriminate].
  destruct (py_iter listed) as [items|e]; simpl; eauto.
  apply for_each_remote_unreadable.
Qed.

(** ** The local pipeline and the orchestrator *)

Section Pipeline.

Context {Frame Gray : Type}.
Variable cv2_VideoCapture : string -> VideoCapture Frame.
Variable to_gray : Frame -> result Gray.
Variable mean_flow_magnitude : Gray -> Gray -> result Q.
Variable np_sqrt : Q -> Q.
Variable open_rb : string -> result unit.
Variable requests_post :
  string -> option string -> string -> Z -> Z -> Z -> result Response.
Variable self : VideoProcessor.

Local Abbreviation detect_motion :=
  (_detect_segments_with_motion cv2_VideoCapture to_gray mean_flow_magnitude
     np_sqrt self).
Local Abbreviation body_of_motion :=
  (motion_body cv2_VideoCapture to_gray mean_flow_magnitude np_sqrt self).
Local Abbreviation local_path :=
  (motion_path cv2_VideoCapture to_gray mean_flow_magnitude np_sqrt self).
Local Abbreviation detect_api :=
  (_detect_segments_with_api cv2_VideoCapture to_gray mean_flow_magnitude
     np_sqrt open_rb requests_post self).
Local Abbreviation body_of_api :=
  (api_body cv2_VideoCapture to_gray mean_flow_magnitude np_sqrt open_rb
     requests_post self).
Local Abbreviation detect :=
  (detect_high_action_segments cv2_VideoCapture to_gray mean_flow_magnitude
     np_sqrt open_rb requests_post self).

Lemma detect_motion_eq path d :
  detect_motion path d
  = Ok (match body_of_motion path d with Ok segs => segs | Raise _ => [] end).
Proof.
  unfold _detect_segments_with_motion, try_except.
  destruct (body_of_motion path d); reflexivity.
Qed.

Lemma local_path_eq path d :
  local_path path d
  = Ok (map to_dict
          (match body_of_motion path d with Ok segs => segs | Raise _ => [] end)).
Proof. unfold motion_path. rewrite detect_motion_eq. reflexivity. Qed.

Lemma detect_local path d :
  select_strategy self = LOCAL ->
  detect path d = local_path path (effective_duration d).
Proof.
  unfold select_strategy, detect_high_action_segments, effective_duration.
  destruct (use_clipping_api self && key_truthy (clipping_api_key self));
    [discriminate | reflexivity].
Qed.

Lemma detect_remote path d :
  select_strategy self = REMOTE ->
  detect path d = detect_api path (effective_duration d).
Proof.
  unfold select_strategy, detect_high_action_segments, effective_duration.
  destruct (use_clipping_api self && key_truthy (clipping_api_key self));
    [reflexivity | discriminate].
Qed.

Lemma detect_api_total path d : exists segs, detect_api path d = Ok segs.
Proof.
  unfold _detect_segments_with_api, try_except.
  destruct (body_of_api path d) as [segs|e]; [eauto|].
  rewrite local_path_eq. eauto.
Qed.

(** What the extraction returns is the overlap resolution of the sorted
    candidates. *)
Lemma extract_inv ms fps d segs :
  _extract_segments_from_scores np_sqrt self ms fps d = Ok segs ->
  segs = []
  \/ exists candidates,
       ms <> []
       /\ collect_segments np_sqrt self ms fps d = Ok candidates
       /\ segs = _remove_overlapping_segments (sorted_by_score candidates).
Proof.
  unfold _extract_segments_from_scores. destruct ms as [|m ms].
  - intros [= <-]. now left.
  - destruct (collect_segments np_sqrt self (m :: ms) fps d) as [c|e]; simpl;
      [|discriminate].
    intros [= <-]. right. exists c. repeat split. discriminate.
Qed.

Lemma motion_body_inv path d segs :
  body_of_motion path d = Ok segs ->
  segs = []
  \/ exists raw ms candidates,
       isOpened (cv2_VideoCapture path) = true
       /\ collect_motion_scores to_gray mean_flow_magnitude self
            (cv2_VideoCapture path) = Ok raw
       /\ normalize_scores raw = Ok ms
       /\ ms <> []
       /\ collect_segments np_sqrt self ms
            (CAP_PROP_FPS (cv2_VideoCapture path)) d = Ok candidates
       /\ segs = _remove_overlapping_segments (sorted_by_score candidates).
Proof.
  unfold motion_body.
  destruct (isOpened (cv2_VideoCapture path)) eqn:Eo; simpl; [|discriminate].
  destruct (collect_motion_scores _ _ _ _) as [raw|e] eqn:Er; simpl;
    [|discriminate].
  destruct raw as [|r raw]; [intros [= <-]; now left|].
  destruct (normalize_scores (r :: raw)) as [ms|e] eqn:En; simpl;
    [|discriminate].
  intros H. apply extract_inv in H as [->|(c & Hne & Hc & ->)]; [now left|].
  right. exists (r :: raw), ms, c. repeat split; assumption.
Qed.

(** Every segment of the motion path comes out of the overlap resolver. *)
Lemma detect_motion_inv path d :
  exists segs,
    detect_motion path d = Ok segs
    /\ (segs = []
        \/ exists raw ms candidates,
             isOpened (cv2_VideoCapture path) = true
             /\ collect_motion_scores to_gray mean_flow_magnitude self
                  (cv2_VideoCapture path) = Ok raw
             /\ normalize_scores raw = Ok ms
             /\ ms <> []
             /\ collect_segments np_sqrt self ms
                  (CAP_PROP_FPS (cv2_VideoCapture path)) d = Ok candidates
             /\ segs = _remove_overlapping_segments (sorted_by_score candidates)).
Proof.
  rewrite detect_motion_eq.
  destruct (body_of_motion path d) as [segs|e] eqn:E.
  - exists segs. split; [reflexivity|]. now apply motion_body_inv in E.
  - exists []. split; [reflexivity | now left].
Qed.

Lemma detect_motion_disjoint path d :
  returns (detect_motion path d) pairwise_disjoint.
Proof.
  destruct (detect_motion_inv path d) as (segs & -> & H). simpl.
  destruct H as [->|(raw & ms & c & _ & _ & _ & _ & _ & ->)].
  - apply pairwise_disjoint_nil.
  - apply remove_overlapping_disjoint.
Qed.

Lemma local_path_disjoint path d :
  returns (local_path path d) pairwise_disjoint.
Proof.
  pose proof (detect_motion_disjoint path d) as H.
  unfold motion_path.
  destruct (detect_motion path d) as [segs|e]; simpl in *; [|exact H].
  now apply pairwise_disjoint_to_dict.
Qed.

Lemma detect_api_failed path d :
  request_failed open_rb requests_post self path d ->
  detect_api path d = local_path path d.
Proof.
  unfold _detect_segments_with_api, api_body, try_except.
  intros [(e & He0)|[(e & He)|(r & Hr & Hs)]]; [rewrite He0; reflexivity| |].
  - destruct (open_rb path); simpl; [rewrite He|]; reflexivity.
  - destruct (open_rb path); simpl; [rewrite Hr; simpl|reflexivity].
    apply Z.eqb_neq in Hs. rewrite Hs.
    rewrite local_path_eq. reflexivity.
Qed.

Lemma detect_motion_limits path d :
  returns (detect_motion path d) (Forall within_limits).
Proof.
  destruct (detect_motion_inv path d) as (segs & -> & H). simpl.
  destruct H as [->|(raw & ms & c & _ & _ & _ & _ & Hc & ->)]; [constructor|].
  eapply Forall_sublist_of; [apply remove_overlapping_sublist|].
  apply sorted_by_score_Forall.
  rewrite collect_segments_eq in Hc.
  destruct (window_size_of _ _ _) as [ws|]; simpl in Hc; [|discriminate].
  destruct (py_range _ _ _) as [idxs|]; simpl in Hc; [|discriminate].
  injection Hc as <-. apply Forall_flat_map, List.Forall_forall.
  intros i _. apply window_segments_limits.
Qed.

(** C1. Every segment sequence the motion path returns is free of overlaps:
    when the motion strategy is selected, or the remote strategy is selected
    and its request fails, no two segments at distinct positions of the
    result of [detect_high_action_segments] overlap. *)
Theorem local_segments_disjoint path d :
  select_strategy self = LOCAL
  \/ request_failed open_rb requests_post self path (effective_duration d) ->
  returns (detect path d) pairwise_disjoint.
Proof.
  intros H.
  assert (detect path d = local_path path (effective_duration d)) as ->.
  { destruct (select_strategy self) eqn:Es.
    - destruct H as [H|H]; [discriminate|].
      rewrite detect_remote by exact Es. now apply detect_api_failed.
    - now apply detect_local. }
  apply local_path_disjoint.
Qed.

(** C2. Detection always returns a segment sequence and never raises,
    whatever the video, the configuration and the remote service do.  The
    motion path turns every exception raised in its body into the empty
    sequence; in particular a source that does not open, a source that
    yields no or one motion sample, and a run in which no visited window
    passes the threshold give the empty sequence. *)
Theorem detection_never_raises path d :
  (exists segs, detect path d = Ok segs)
  /\ (forall d',
        detect_motion path d'
        = Ok (match body_of_motion path d' with
              | Ok segs => segs
              | Raise _ => []
              end))
  /\ (forall d', isOpened (cv2_VideoCapture path) = false ->
        detect_motion path d' = Ok [])
  /\ (forall d' raw,
        collect_motion_scores to_gray mean_flow_magnitude self
          (cv2_VideoCapture path) = Ok raw ->
        (length raw <= 1)%nat ->
        detect_motion path d' = Ok [])
  /\ (forall d' raw ms ws idxs,
        collect_motion_scores to_gray mean_flow_magnitude self
          (cv2_VideoCapture path) = Ok raw ->
        normalize_scores raw = Ok ms ->
        window_size_of self (CAP_PROP_FPS (cv2_VideoCapture path)) d' = Ok ws ->
        py_range 0 (Z.of_nat (length ms) - ws) (step_size_of ws) = Ok idxs ->
        (forall i, In i idxs ->
           is_candidate ms (threshold_of np_sqrt ms) ws i = false) ->
        detect_motion path d' = Ok []).
Proof.
  split; [|split; [|split; [|split]]].
  - unfold detect_high_action_segments.
    destruct (use_clipping_api self && key_truthy (clipping_api_key self)).
    + apply detect_api_total.
    + rewrite local_path_eq. eauto.
  - intros d'. apply detect_motion_eq.
  - intros d' Ho. rewrite detect_motion_eq. unfold motion_body.
    rewrite Ho. reflexivity.
  - intros d' raw Hraw Hlen. rewrite detect_motion_eq. unfold motion_body.
    destruct (isOpened (cv2_VideoCapture path)); simpl; [|reflexivity].
    rewrite Hraw. simpl.
    destruct raw as [|m raw]; [reflexivity|].
    destruct raw as [|m' raw]; [|simpl in Hlen; lia].
    simpl. unfold _extract_segments_from_scores.
    match goal with
    | |- context [collect_segments ?a ?b ?c ?e ?f] =>
        pose proof (collect_segments_short a b c e f ltac:(simpl; lia)) as Hs;
        destruct (collect_segments a b c e f) as [cands|]
    end; simpl; [|reflexivity].
    rewrite Hs. reflexivity.
  - intros d' raw ms ws idxs Hraw Hn Hw Hr Hno.
    rewrite detect_motion_eq. unfold motion_body.
    destruct (isOpened (cv2_VideoCapture path)); simpl; [|reflexivity].
    rewrite Hraw. simpl.
    destruct raw as [|m raw]; [reflexivity|].
    rewrite Hn. simpl. unfold _extract_segments_from_scores.
    destruct ms as [|n ms]; [reflexivity|].
    rewrite (collect_segments_no_candidate _ _ _ _ _ _ _ Hw Hr Hno).
    reflexivity.
Qed.


(** C7. When the remote strategy is selected and its request fails (the
    file cannot be read, the request raises, or the status is not 200), the
    result of detection is the result of the motion path on the same video
    with the same segment duration. *)
Theorem remote_failure_falls_back path d :
  select_strategy self = REMOTE ->
  request_failed open_rb requests_post self path (effective_duration d) ->
  detect path d = local_path path (effective_duration d).
Proof.
  intros Hs Hf. rewrite detect_remote by exact Hs.
  now apply detect_api_failed.
Qed.

(** C8. A window length whose half is not positive never surfaces as an
    error.  When the step is zero the extraction raises [ValueError], and the
    motion path catches it and returns the empty sequence as it does for any
    other failure; when the step is negative the loop runs zero times.
    Either way the motion path, and detection with the motion strategy,
    return the empty sequence. *)
Theorem nonpositive_window_yields_empty path d ws :
  window_size_of self (CAP_PROP_FPS (cv2_VideoCapture path))
    (effective_duration d) = Ok ws ->
  (step_size_of ws <= 0)%Z ->
  (forall ms, ms <> [] ->
     _extract_segments_from_scores np_sqrt self ms
       (CAP_PROP_FPS (cv2_VideoCapture path)) (effective_duration d)
     = if (step_size_of ws =? 0)%Z then Raise ValueError else Ok [])
  /\ detect_motion path (effective_duration d) = Ok []
  /\ (select_strategy self = LOCAL -> detect path d = Ok []).
Proof.
  intros Hw Hs.
  assert (Hm : detect_motion path (effective_duration d) = Ok []).
  { destruct (detect_motion_inv path (effective_duration d)) as (segs & Hd & H).
    rewrite Hd. f_equal.
    destruct H as [->|(raw & ms & c & _ & _ & _ & _ & Hc & ->)]; [reflexivity|].
    rewrite (collect_segments_no_step _ _ _ _ _ _ Hw Hs) in Hc.
    destruct (step_size_of ws =? 0)%Z; [discriminate|].
    injection Hc as <-. reflexivity. }
  split; [|split].
  - intros ms Hne. unfold _extract_segments_from_scores.
    destruct ms as [|m ms]; [congruence|].
    rewrite (collect_segments_no_step _ _ _ _ _ _ Hw Hs).
    destruct (step_size_of ws =? 0)%Z; reflexivity.
  - exact Hm.
  - intros Hl. rewrite detect_local by exact Hl.
    unfold motion_path. rewrite Hm. reflexivity.
Qed.

(** C9. A response that is not a 200, or whose body raises while it is read
    (it does not decode, it is not an object, its [segments] cannot be
    iterated, or one of the items is not an object, lacks [start_time] or
    [end_time], or holds a non-number there), is treated as an unavailable
    service: the result is that of the motion path, and nothing appended
    from the items read before the failure is returned. *)
Theorem unreadable_response_falls_back path d :
  (forall response,
     requests_post (clipping_api_url self ++ "/analyze")%string
       (clipping_api_key self) path d MIN_CLIP_LENGTH MAX_CLIP_LENGTH
     = Ok response ->
     status_code response <> 200%Z \/ response_unreadable response = true) ->
  detect_api path d = local_path path d.
Proof.
  intros H. unfold _detect_segments_with_api, api_body, try_except.
  destruct (open_rb path); simpl; [|reflexivity].
  destruct (requests_post _ _ _ _ _ _) as [r|e]; simpl; [|reflexivity].
  destruct (H r eq_refl) as [Hs|Hu].
  - apply Z.eqb_neq in Hs. rewrite Hs. rewrite local_path_eq. reflexivity.
  - destruct (status_code r =? 200)%Z.
    + destruct (parse_response_unreadable r Hu) as (e & ->). reflexivity.
    + rewrite local_path_eq. reflexivity.
Qed.

End Pipeline.

(** ** The properties on concrete runs *)

(** The motion path on the video with two flashes returns two segments,
    the highest-scoring window around each flash extended to the minimal
    duration. *)
Example two_bursts_detected :
  returns
    (detect_high_action_segments two_burst_video luma_gray luma_flow
       sqrt_approx readable no_network (local_processor 1) "clip.mp4"
       (Some 2%Z))
    (fun segs => map (fun s => (Qred (start s), Qred (end_ s))) segs
                 = [(8, 23); (33, 48)]).
Proof. vm_compute. reflexivity. Qed.

(** Two candidates of equal score that overlap, [5, 20] and [18, 35]: the
    sort keeps their order and the resolver keeps the first one only. *)
Example equal_scores_keep_first :
  let a := mkSegment 5 20 15 (8 # 10) 1 in
  let b := mkSegment 18 35 17 (8 # 10) 1 in
  sorted_by_score [a; b] = [a; b]
  /\ _remove_overlapping_segments (sorted_by_score [a; b]) = [a].
Proof. split; reflexivity. Qed.

(** The sort is stable and descending. *)
Example sort_is_stable :
  let a := mkSegment 0 15 15 (1 # 2) (3 # 4) in
  let b := mkSegment 20 35 15 1 1 in
  let c := mkSegment 40 55 15 (1 # 2) (3 # 4) in
  let d := mkSegment 60 75 15 1 1 in
  sorted_by_score [a; b; c; d] = [b; d; a; c].
Proof. reflexivity. Qed.

(** A source that does not open yields the empty sequence. *)
Example unopenable_source_is_empty :
  detect_high_action_segments (fun _ => unopenable) luma_gray luma_flow
    sqrt_approx readable no_network (VideoProcessor_init false None "")
    "missing.mp4" None
  = Ok [].
Proof. reflexivity. Qed.

(** A 200 response without [segments] yields the empty sequence, not the
    motion path's result. *)
Example missing_segments_is_empty :
  detect_high_action_segments burst_video luma_gray luma_flow sqrt_approx
    readable (service_answers 200 (VDict [])) (remote_processor 1)
    "clip.mp4" (Some 2%Z)
  = Ok [].
Proof. reflexivity. Qed.

(** C1, on the video with two flashes and the motion strategy. *)
Lemma local_segments_disjoint_witness :
  (select_strategy (local_processor 1) = LOCAL
   \/ request_failed readable no_network (local_processor 1) "clip.mp4"
        (effective_duration (Some 2%Z)))
  /\ returns
       (detect_high_action_segments two_burst_video luma_gray luma_flow
          sqrt_approx readable no_network (local_processor 1) "clip.mp4"
          (Some 2%Z))
       pairwise_disjoint.
Proof.
  assert (H : select_strategy (local_processor 1) = LOCAL
              \/ request_failed readable no_network (local_processor 1)
                   "clip.mp4" (effective_duration (Some 2%Z)))
    by (left; reflexivity).
  split; [exact H|].
  exact (local_segments_disjoint two_burst_video luma_gray luma_flow
           sqrt_approx readable no_network (local_processor 1) "clip.mp4"
           (Some 2%Z) H).
Defined.

(** C1 as stated fails on the remote path: the two items of a 200 response
    are returned as they are, although [0, 10] and [5, 15] overlap. *)
Lemma remote_segments_overlap :
  ~ returns
      (detect_high_action_segments burst_video luma_gray luma_flow
         sqrt_approx readable (service_answers 200 overlapping_body)
         (remote_processor 1) "clip.mp4" None)
      pairwise_disjoint.
Proof.
  intros H.
  set (r := detect_high_action_segments _ _ _ _ _ _ _ _ _) in H.
  vm_compute in r. subst r. simpl in H.
  apply (H 0%nat 1%nat _ _ ltac:(lia) eq_refl eq_refl).
  split; reflexivity.
Qed.

(** C3 as stated fails: at 29.97 frames per second, a target of 30 s and a
    stride of 2 the quotient is 449.55; the code takes 449 samples, rounding
    gives 450. *)
Lemma window_length_truncates :
  window_size_of (local_processor 2) (2997 # 100) 30 = Ok 449%Z
  /\ spec_window_length (2997 # 100) 30 2 = 450%Z
  /\ window_size_of (local_processor 2) (2997 # 100) 30
     <> Ok (spec_window_length (2997 # 100) 30 2).
Proof.
  split; [vm_compute; reflexivity|].
  split; [vm_compute; reflexivity|].
  vm_compute. discriminate.
Qed.

(** With as many samples as the window is long, the specification's
    wording visits index 0; the loop of line 247 visits nothing. *)
Example last_window_skipped :
  spec_window_starts 4 4 = [0%Z]
  /\ py_range 0 (4 - 4) (step_size_of 4) = Ok [].
Proof. split; reflexivity. Qed.

(** C3, on nine samples at 1 frame per second with a target of 4 s and a
    stride of 1: the windows start at 0, 2 and 4; the window that starts at
    4 ends at the second last sample. *)
Lemma window_schedule_witness :
  window_size_of (local_processor 1) 1 4 = Ok 4%Z
  /\ py_range 0 (Z.of_nat (length still_samples) - 4) (step_size_of 4)
     = Ok [0; 2; 4]%Z
  /\ (4%Z = py_int (1 * inject_Z 4
                    / inject_Z (frame_sample_rate (local_processor 1)))
      /\ step_size_of 4 = (4 / 2)%Z
      /\ collect_segments sqrt_approx (local_processor 1) still_samples 1 4
         = for_each
             (window_step still_samples
                (threshold_of sqrt_approx still_samples) 4)
             [0; 2; 4]%Z []
      /\ (forall i, In i [0; 2; 4]%Z ->
            exists k, (0 <= k)%Z /\ i = (k * step_size_of 4)%Z
                      /\ (0 <= i)%Z
                      /\ (i + 4 <= Z.of_nat (length still_samples))%Z)
      /\ (forall k, (2 <= 4)%Z -> (0 <= k)%Z ->
            (k * step_size_of 4 + 4 < Z.of_nat (length still_samples))%Z ->
            In (k * step_size_of 4)%Z [0; 2; 4]%Z)).
Proof.
  split; [vm_compute; reflexivity|].
  split; [vm_compute; reflexivity|].
  exact (window_schedule sqrt_approx (local_processor 1) still_samples 1 4 4
           [0; 2; 4]%Z eq_refl eq_refl).
Defined.


(** C7, on the scenario of a service that answers 500. *)
Lemma remote_failure_falls_back_witness :
  select_strategy (remote_processor 1) = REMOTE
  /\ request_failed readable (service_answers 500 VNone) (remote_processor 1)
       "clip.mp4" (effective_duration (Some 2%Z))
  /\ detect_high_action_segments burst_video luma_gray luma_flow sqrt_approx
       readable (service_answers 500 VNone) (remote_processor 1) "clip.mp4"
       (Some 2%Z)
     = motion_path burst_video luma_gray luma_flow sqrt_approx
         (remote_processor 1) "clip.mp4" (effective_duration (Some 2%Z)).
Proof.
  assert (Hf : request_failed readable (service_answers 500 VNone)
                 (remote_processor 1) "clip.mp4"
                 (effective_duration (Some 2%Z))).
  { right. right. exists (mkResponse 500 (Ok VNone)).
    split; [reflexivity | discriminate]. }
  split; [reflexivity|]. split; [exact Hf|].
  exact (remote_failure_falls_back burst_video luma_gray luma_flow sqrt_approx
           readable (service_answers 500 VNone) (remote_processor 1)
           "clip.mp4" (Some 2%Z) eq_refl Hf).
Defined.

(** C8 as stated fails: with a stride of 2, a target of 1 s and 1 frame per
    second the window length is 0; the extraction raises [ValueError] for
    the zero step, and detection returns the empty sequence instead of
    raising. *)
Lemma zero_window_error_swallowed :
  window_size_of (local_processor 2) 1 1 = Ok 0%Z
  /\ (exists ms,
        (do raw <- collect_motion_scores luma_gray luma_flow
                     (local_processor 2) (short_video "clip.mp4");
         normalize_scores raw) = Ok ms
        /\ _extract_segments_from_scores sqrt_approx (local_processor 2) ms 1 1
           = Raise ValueError)
  /\ detect_high_action_segments short_video luma_gray luma_flow sqrt_approx
       readable no_network (local_processor 2) "clip.mp4" (Some 1%Z)
     = Ok []
  /\ ~ (exists e,
          detect_high_action_segments short_video luma_gray luma_flow
            sqrt_approx readable no_network (local_processor 2) "clip.mp4"
            (Some 1%Z)
          = Raise e).
Proof.
  split; [vm_compute; reflexivity|].
  split; [eexists; split; vm_compute; reflexivity|].
  split; [vm_compute; reflexivity|].
  intros (e & He). vm_compute in He. discriminate.
Qed.

(** C8, on the same run. *)
Lemma nonpositive_window_yields_empty_witness :
  window_size_of (local_processor 2)
    (CAP_PROP_FPS (short_video "clip.mp4")) (effective_duration (Some 1%Z))
  = Ok 0%Z
  /\ (step_size_of 0 <= 0)%Z
  /\ ((forall ms, ms <> [] ->
         _extract_segments_from_scores sqrt_approx (local_processor 2) ms
           (CAP_PROP_FPS (short_video "clip.mp4"))
           (effective_duration (Some 1%Z))
         = if (step_size_of 0 =? 0)%Z then Raise ValueError else Ok [])
      /\ _detect_segments_with_motion short_video luma_gray luma_flow
           sqrt_approx (local_processor 2) "clip.mp4"
           (effective_duration (Some 1%Z))
         = Ok []
      /\ (select_strategy (local_processor 2) = LOCAL ->
          detect_high_action_segments short_video luma_gray luma_flow
            sqrt_approx readable no_network (local_processor 2) "clip.mp4"
            (Some 1%Z)
          = Ok [])).
Proof.
  assert (Hs : (step_size_of 0 <= 0)%Z) by (vm_compute; discriminate).
  split; [vm_compute; reflexivity|]. split; [exact Hs|].
  exact (nonpositive_window_yields_empty short_video luma_gray luma_flow
           sqrt_approx readable no_network (local_processor 2) "clip.mp4"
           (Some 1%Z) 0%Z eq_refl Hs).
Defined.

(** C9 as stated fails: a 200 response whose [action_score] is the string
    ["high"] does not parse as the protocol's float field, yet its item is
    returned, string included, and the result is not that of the motion
    path. *)
Lemma unparsed_score_is_returned :
  field_parse_failure (mkResponse 200 (Ok unparsed_score_body)) = true
  /\ detect_high_action_segments burst_video luma_gray luma_flow sqrt_approx
       readable (service_answers 200 unparsed_score_body)
       (remote_processor 1) "clip.mp4" (Some 2%Z)
     = Ok [mkSegment 0 10 (10 - 0) (VStr "high") (VNum (9 # 10))]
  /\ detect_high_action_segments burst_video luma_gray luma_flow sqrt_approx
       readable (service_answers 200 unparsed_score_body)
       (remote_processor 1) "clip.mp4" (Some 2%Z)
     <> motion_path burst_video luma_gray luma_flow sqrt_approx
          (remote_processor 1) "clip.mp4" 2.
Proof.
  split; [vm_compute; reflexivity|].
  split; [vm_compute; reflexivity|].
  vm_compute. discriminate.
Qed.

(** C9, on a 200 response whose second item lacks [end_time]: the first
    item is read, the second raises, and the result is the motion path's. *)
Lemma unreadable_response_falls_back_witness :
  (forall response,
     service_answers 200 truncated_item_body
       (clipping_api_url (remote_processor 1) ++ "/analyze")%string
       (clipping_api_key (remote_processor 1)) "clip.mp4" 2
       MIN_CLIP_LENGTH MAX_CLIP_LENGTH
     = Ok response ->
     status_code response <> 200%Z \/ response_unreadable response = true)
  /\ _detect_segments_with_api burst_video luma_gray luma_flow sqrt_approx
       readable (service_answers 200 truncated_item_body)
       (remote_processor 1) "clip.mp4" 2
     = motion_path burst_video luma_gray luma_flow sqrt_approx
         (remote_processor 1) "clip.mp4" 2.
Proof.
  assert (H : forall response,
             service_answers 200 truncated_item_body
               (clipping_api_url (remote_processor 1) ++ "/analyze")%string
               (clipping_api_key (remote_processor 1)) "clip.mp4" 2
               MIN_CLIP_LENGTH MAX_CLIP_LENGTH
             = Ok response ->
             status_code response <> 200%Z
             \/ response_unreadable response = true).
  { intros response [= <-]. right. reflexivity. }
  split; [exact H|].
  exact (unreadable_response_falls_back burst_video luma_gray luma_flow
           sqrt_approx readable (service_answers 200 truncated_item_body)
           (remote_processor 1) "clip.mp4" 2 H).
Defined.

(** * Further properties of the engine and of its callers *)

(** ** The overlap resolver is maximal and idempotent *)

Section ResolverMore.

Context {V : Type}.
Implicit Types (seg a b : Segment V) (segments acc : list (Segment V)).

Lemma overlaps_true a b : overlaps a b = true <-> time_overlap a b.
Proof.
  split.
  - intros H. destruct (Qlt_le_dec (start b) (end_ a)) as [H1|H1].
    + destruct (Qlt_le_dec (start a) (end_ b)) as [H2|H2]; [now split|].
      exfalso. unfold overlaps in H. apply negb_true_iff in H.
      apply Qle_bool_iff in H2. rewrite H2, orb_true_r in H. discriminate.
    + exfalso. unfold overlaps in H. apply negb_true_iff in H.
      apply Qle_bool_iff in H1. rewrite H1 in H. discriminate.
  - intros H. destruct (overlaps a b) eqn:E; [reflexivity|].
    apply overlaps_false in E. contradiction.
Qed.

Lemma fold_resolve_prefix segments acc :
  exists kept, fold_left resolve_step segments acc = acc ++ kept.
Proof.
  destruct (fold_resolve_sublist segments acc) as (kept & H & _). eauto.
Qed.

Lemma fold_resolve_maximal segments acc :
  Forall (fun seg =>
            seg ∈ fold_left resolve_step segments acc
            \/ Exists (time_overlap seg) (fold_left resolve_step segments acc))
    segments.
Proof.
  revert acc. induction segments as [|seg segments IH]; intros acc;
    [constructor|].
  simpl. constructor; [|apply IH].
  destruct (fold_resolve_prefix segments (resolve_step acc seg)) as (kept & ->).
  unfold resolve_step. destruct (existsb (overlaps seg) acc) eqn:E.
  - right. apply existsb_exists in E as (x & Hx & Ho).
    apply List.Exists_exists. exists x. split.
    + apply in_or_app. now left.
    + now apply overlaps_true.
  - left. rewrite <- app_assoc. apply elem_of_app. right. constructor.
Qed.

Lemma fold_resolve_fixed segments acc :
  pairwise_disjoint (acc ++ segments) ->
  fold_left resolve_step segments acc = acc ++ segments.
Proof.
  revert acc. induction segments as [|seg segments IH]; intros acc Hd; simpl.
  - now rewrite app_nil_r.
  - assert (E : existsb (overlaps seg) acc = false).
    { destruct (existsb (overlaps seg) acc) eqn:E; [|reflexivity]. exfalso.
      apply existsb_exists in E as (x & Hx & Ho).
      apply overlaps_true in Ho.
      apply list_elem_of_In, list_elem_of_lookup in Hx as (i & Hi).
      apply (Hd (length acc) i seg x).
      - apply lookup_lt_Some in Hi. lia.
      - now rewrite list_lookup_middle.
      - now apply lookup_app_l_Some.
      - exact Ho. }
    unfold resolve_step. rewrite E.
    rewrite IH; rewrite <- app_assoc; [reflexivity | exact Hd].
Qed.

(** X1. The resolver drops a segment only for a reason: every input segment
    is either returned or overlaps a segment that is returned. *)
Theorem remove_overlapping_maximal segments :
  Forall (fun seg =>
            seg ∈ _remove_overlapping_segments segments
            \/ Exists (time_overlap seg) (_remove_overlapping_segments segments))
    segments.
Proof. rewrite remove_overlapping_fold. apply fold_resolve_maximal. Qed.

(** X2. Resolving twice changes nothing more, and a sequence without
    overlaps is returned as it is. *)
Theorem remove_overlapping_idempotent segments :
  _remove_overlapping_segments (_remove_overlapping_segments segments)
  = _remove_overlapping_segments segments
  /\ (pairwise_disjoint segments ->
      _remove_overlapping_segments segments = segments).
Proof.
  assert (Hfix : forall l : list (Segment V),
             pairwise_disjoint l -> _remove_overlapping_segments l = l).
  { intros l Hl. rewrite remove_overlapping_fold.
    now rewrite fold_resolve_fixed. }
  split; [|apply Hfix].
  apply Hfix, remove_overlapping_disjoint.
Qed.

End ResolverMore.

(** ** The candidates are returned highest score first *)

Lemma insert_by_score_sorted x l :
  StronglySorted by_score_desc l ->
  StronglySorted by_score_desc (insert_by_score x l).
Proof.
  induction l as [|y l IH]; intros Hs; simpl.
  - constructor; constructor.
  - apply StronglySorted_inv in Hs as [Hl Hy].
    destruct (Qltb (score x) (score y)) eqn:E.
    + apply Qltb_lt in E. constructor; [now apply IH|].
      apply insert_by_score_Forall. split; [unfold by_score_desc; lra | exact Hy].
    + apply Qltb_ge in E. constructor.
      * constructor; assumption.
      * constructor; [exact E|].
        eapply Forall_impl; [exact Hy|]. unfold by_score_desc. simpl.
        intros c Hc. lra.
Qed.

Lemma sorted_by_score_sorted l : StronglySorted by_score_desc (sorted_by_score l).
Proof.
  induction l as [|x l IH]; simpl; [constructor | now apply insert_by_score_sorted].
Qed.

Lemma StronglySorted_sublist_of {A : Type} (R : A -> A -> Prop) (l k : list A) :
  sublist l k -> StronglySorted R k -> StronglySorted R l.
Proof.
  induction 1 as [|x l k Hs IH|x l k Hs IH]; intros Hk.
  - constructor.
  - apply StronglySorted_inv in Hk as [Hk Hx]. constructor; [auto|].
    eapply Forall_sublist_of; eauto.
  - apply StronglySorted_inv in Hk as [Hk _]. auto.
Qed.

Lemma insert_by_score_perm x l : insert_by_score x l ≡ₚ x :: l.
Proof.
  induction l as [|y l IH]; simpl; [reflexivity|].
  destruct (Qltb (score x) (score y)); [|reflexivity].
  rewrite IH. apply Permutation_swap.
Qed.

Lemma sorted_by_score_perm l : sorted_by_score l ≡ₚ l.
Proof.
  induction l as [|x l IH]; simpl; [reflexivity|].
  now rewrite insert_by_score_perm, IH.
Qed.

(** ** Windows, scores and confidence *)

Lemma py_max2_spec (a b : Q) :
  a <= py_max2 a b /\ b <= py_max2 a b
  /\ (py_max2 a b == a \/ py_max2 a b == b).
Proof.
  unfold py_max2. destruct (Qltb a b) eqn:E.
  - apply Qltb_lt in E. repeat split; lra.
  - apply Qltb_ge in E. repeat split; lra.
Qed.

Lemma py_min2_spec (a b : Q) :
  py_min2 a b <= a /\ py_min2 a b <= b
  /\ (py_min2 a b == a \/ py_min2 a b == b).
Proof.
  unfold py_min2. destruct (Qltb b a) eqn:E.
  - apply Qltb_lt in E. repeat split; lra.
  - apply Qltb_ge in E. repeat split; lra.
Qed.

Lemma half_twice (x : Q) : 2 * (x / 2) == x.
Proof. field. Qed.

Lemma Qsum_unit (l : list Q) :
  Forall (fun x => 0 <= x <= 1) l ->
  0 <= Qsum l <= inject_Z (Z.of_nat (length l)).
Proof.
  induction 1 as [|x l Hx _ IH].
  - simpl. split; apply Qle_refl.
  - cbn [Qsum fold_right length]. fold (Qsum l).
    rewrite Nat2Z.inj_succ, <- Z.add_1_r, inject_Z_plus.
    change (inject_Z 1) with 1. lra.
Qed.

Lemma np_mean_unit (l : list Q) :
  l <> [] -> Forall (fun x => 0 <= x <= 1) l -> 0 <= np_mean l <= 1.
Proof.
  intros Hne Hl. destruct (Qsum_unit l Hl) as [H0 H1].
  assert (Hpos : 0 < inject_Z (Z.of_nat (length l))).
  { change 0 with (inject_Z 0). rewrite <- Zlt_Qlt.
    destruct l; [congruence | simpl; lia]. }
  unfold np_mean. split.
  - apply Qle_shift_div_l; [exact Hpos | lra].
  - apply Qle_shift_div_r; [exact Hpos | lra].
Qed.

Lemma window_at_sublist (ms : list Normalized) (window_size i : Z) :
  sublist (window_at ms window_size i) ms.
Proof.
  unfold window_at, py_slice.
  etransitivity; [apply sublist_take | apply sublist_drop].
Qed.

Lemma normalize_scores_inv (raw : list Motion.t) (ms : list Normalized) :
  normalize_scores raw = Ok ms ->
  map sample ms = raw
  /\ Forall (fun n => 0 <= normalized_score n <= 1) ms.
Proof.
  unfold normalize_scores. destruct raw as [|m raw]; [discriminate|].
  simpl py_max. simpl py_min. simpl rbind.
  destruct (fold_min_spec (map Motion.score raw) (Motion.score m))
    as (_ & Hlx & Hlall).
  destruct (fold_max_spec (map Motion.score raw) (Motion.score m))
    as (_ & Hhx & Hhall).
  set (lo := fold_left _ (map Motion.score raw) (Motion.score m)) in *.
  set (hi := fold_left (fun acc y => if Qltb acc y then y else acc)
               (map Motion.score raw) (Motion.score m)) in *.
  intros [= <-]. split.
  - simpl. f_equal. rewrite map_map. simpl. apply map_id.
  - change (Forall (fun n => 0 <= normalized_score n <= 1)
              (map (fun x => mkNormalized x
                                ((Motion.score x - lo) / score_range hi lo))
                 (m :: raw))).
    apply Forall_map. simpl.
    assert (Hall : Forall (fun x : Motion.t => lo <= Motion.score x <= hi) (m :: raw)).
    { constructor; [lra|].
      apply List.Forall_forall. intros x Hx.
      rewrite List.Forall_forall in Hlall, Hhall.
      split; [apply Hlall | apply Hhall]; apply in_map; exact Hx. }
    eapply Forall_impl; [exact Hall|]. simpl. intros x Hx.
    apply (normalized_bounds _ _ _ Hx).
Qed.

Lemma window_segments_unit (ms : list Normalized) (window_size i : Z) :
  Forall (fun n => 0 <= normalized_score n <= 1) ms ->
  Forall (fun seg =>
            0 <= score seg <= 1
            /\ confidence seg = py_min2 1 (score seg * (3 # 2)))
    (window_segments ms window_size i).
Proof.
  intros Hms. unfold window_segments, clamp_window.
  destruct (py_first _) as [f|] eqn:Ef; simpl; [|constructor].
  destruct (py_last _); simpl; [|constructor].
  destruct (extend_window _ _ _) as [[s e]|]; simpl; [|constructor].
  unfold accept_window. destruct (_ && _); simpl; constructor; [|constructor].
  simpl. split; [|reflexivity].
  apply np_mean_unit.
  - destruct (window_at ms window_size i); [discriminate | discriminate].
  - apply Forall_map.
    eapply Forall_sublist_of; [apply window_at_sublist | exact Hms].
Qed.

(** ** The frame loop *)

Lemma sampled_from_In (rate k : Z) (n : nat) (i : Z) :
  In i (sampled_from rate k n)
  <-> (k <= i < k + Z.of_nat n)%Z /\ (i mod rate = 0)%Z.
Proof.
  revert k. induction n as [|n IH]; intros k.
  - simpl. split; [tauto | lia].
  - cbn [sampled_from]. destruct (k mod rate =? 0)%Z eqn:E.
    + apply Z.eqb_eq in E. simpl. rewrite IH. split.
      * intros [<-|[Hr Hm]]; split; [lia | exact E | lia | exact Hm].
      * intros [Hr Hm]. destruct (Z.eq_dec k i) as [->|Hne]; [now left|].
        right. split; [lia | exact Hm].
    + apply Z.eqb_neq in E. rewrite IH. split.
      * intros [Hr Hm]. split; [lia | exact Hm].
      * intros [Hr Hm]. split; [|exact Hm].
        destruct (Z.eq_dec k i) as [->|Hne]; [congruence | lia].
Qed.

Lemma sampled_from_sorted (rate k : Z) (n : nat) :
  StronglySorted Z.lt (sampled_from rate k n).
Proof.
  revert k. induction n as [|n IH]; intros k; [constructor|].
  cbn [sampled_from]. destruct (k mod rate =? 0)%Z; [|apply IH].
  constructor; [apply IH|]. apply List.Forall_forall. intros i Hi.
  apply sampled_from_In in Hi. lia.
Qed.

Section FrameLoop.

Context {Frame Gray : Type}.
Variable to_gray : Frame -> result Gray.
Variable mean_flow_magnitude : Gray -> Gray -> result Q.
Variable self : VideoProcessor.

(** What the loop appends from a state on, over the remaining frames. *)
Lemma for_each_frame_step (fps : Q) (frames : list Frame)
  (st st' : loop_state Gray) :
  for_each (frame_step to_gray mean_flow_magnitude self fps) frames st = Ok st' ->
  exists new,
    motion_scores _ st' = motion_scores _ st ++ new
    /\ map Motion.frame new
       = (let idxs :=
            sampled_from (frame_sample_rate self) (frame_idx _ st)
              (length frames) in
          match prev_frame _ st with
          | Some _ => idxs
          | None => tail idxs
          end)
    /\ Forall (fun m =>
                 Motion.time m = inject_Z (Motion.frame m) / fps
                 /\ ~ fps == 0)
         new.
Proof.
  revert st. induction frames as [|frame frames IH]; intros st; simpl.
  - intros [= <-]. exists []. rewrite app_nil_r.
    destruct (prev_frame _ st); repeat split; constructor.
  - unfold frame_step at 1, py_mod.
    destruct (frame_sample_rate self =? 0)%Z eqn:Er; simpl; [discriminate|].
    destruct (frame_idx _ st mod frame_sample_rate self =? 0)%Z eqn:Em; simpl.
    + destruct (to_gray frame) as [gray|]; simpl; [|discriminate].
      destruct (prev_frame _ st) as [prev|] eqn:Ep; simpl.
      * destruct (mean_flow_magnitude prev gray) as [sc|]; simpl; [|discriminate].
        unfold py_div. destruct (Qeq_bool fps 0) eqn:Ef; simpl; [discriminate|].
        intros H. apply IH in H as (new & Hs & Hf & Ht). simpl in Hs, Hf.
        exists (Motion.mk (frame_idx _ st)
                  (inject_Z (frame_idx _ st) / fps) sc :: new).
        split; [now rewrite Hs, <- app_assoc|].
        split; [simpl; now rewrite Hf|].
        constructor; [|exact Ht]. simpl. split; [reflexivity|].
        intros E. apply Qeq_bool_iff in E. congruence.
      * intros H. apply IH in H as (new & Hs & Hf & Ht). simpl in Hs, Hf.
        exists new. repeat split; assumption.
    + intros H. apply IH in H as (new & Hs & Hf & Ht). simpl in Hs, Hf.
      exists new. repeat split; assumption.
Qed.

Lemma collect_motion_scores_inv (cap : VideoCapture Frame) (raw : list Motion.t) :
  collect_motion_scores to_gray mean_flow_magnitude self cap = Ok raw ->
  map Motion.frame raw
  = tail (sampled_from (frame_sample_rate self) 0 (length (frames cap)))
  /\ Forall (fun m =>
               Motion.time m = inject_Z (Motion.frame m) / CAP_PROP_FPS cap
               /\ ~ CAP_PROP_FPS cap == 0)
       raw.
Proof.
  unfold collect_motion_scores.
  destruct (for_each _ _ _) as [st|] eqn:E; simpl; [|discriminate].
  intros [= <-]. apply for_each_frame_step in E as (new & Hs & Hf & Ht).
  simpl in Hs, Hf. rewrite Hs. split; assumption.
Qed.

(** X6. When the frame loop completes, the first sampled frame has given no
    motion sample and every later sampled frame exactly one: the frame
    indices of the samples are the indices [i] below the number of frames
    with [i % frame_sample_rate == 0], in increasing order, without the first
    of them, and every sample is stamped with its index divided by the frame
    rate. *)
Theorem motion_samples_follow_stride (cap : VideoCapture Frame)
  (raw : list Motion.t) :
  collect_motion_scores to_gray mean_flow_magnitude self cap = Ok raw ->
  let sampled :=
    sampled_from (frame_sample_rate self) 0 (length (frames cap)) in
  map Motion.frame raw = tail sampled
  /\ (forall i, In i sampled <->
        (0 <= i < Z.of_nat (length (frames cap)))%Z
        /\ (i mod frame_sample_rate self = 0)%Z)
  /\ StronglySorted Z.lt sampled
  /\ Forall (fun m =>
               Motion.time m = inject_Z (Motion.frame m) / CAP_PROP_FPS cap)
       raw.
Proof.
  intros H sampled. apply collect_motion_scores_inv in H as [Hf Ht].
  split; [exact Hf|]. split; [|split].
  - intros i. unfold sampled. rewrite sampled_from_In. simpl. reflexivity.
  - apply sampled_from_sorted.
  - eapply Forall_impl; [exact Ht|]. simpl. intros m [Hm _]. exact Hm.
Qed.

End FrameLoop.

(** X6, on seven frames read with a stride of 2: frames 0, 2, 4 and 6 are
    sampled and the samples are those of frames 2, 4 and 6. *)
Lemma motion_samples_follow_stride_witness :
  let cap := capture_of 1 [0; 1; 0; 0; 1; 1; 0] in
  let raw := [Motion.mk 2 (inject_Z 2 / 1) (Qabs (0 - 0));
              Motion.mk 4 (inject_Z 4 / 1) (Qabs (1 - 0));
              Motion.mk 6 (inject_Z 6 / 1) (Qabs (0 - 1))] in
  collect_motion_scores luma_gray luma_flow (local_processor 2) cap = Ok raw
  /\ (map Motion.frame raw = tail [0; 2; 4; 6]%Z
      /\ (forall i, In i (sampled_from 2 0 7) <->
            (0 <= i < Z.of_nat 7)%Z /\ (i mod 2 = 0)%Z)
      /\ StronglySorted Z.lt (sampled_from 2 0 7)
      /\ Forall (fun m => Motion.time m = inject_Z (Motion.frame m) / 1) raw).
Proof.
  intros cap raw.
  assert (H : collect_motion_scores luma_gray luma_flow (local_processor 2) cap
              = Ok raw) by reflexivity.
  split; [exact H|].
  exact (motion_samples_follow_stride luma_gray luma_flow (local_processor 2)
           cap raw H).
Defined.

(** ** The crop box *)

Lemma py_div_ok (a b : Q) : ~ b == 0 -> py_div a b = Ok (a / b).
Proof.
  intros H. unfold py_div. destruct (Qeq_bool b 0) eqn:E; [|reflexivity].
  apply Qeq_bool_iff in E. contradiction.
Qed.

Lemma py_int_nonneg (x : Q) :
  0 <= x -> inject_Z (py_int x) <= x /\ x < inject_Z (py_int x + 1).
Proof.
  intros Hx. assert (E : py_int x = Qfloor x).
  { destruct x as [n d]. unfold py_int, Qfloor. simpl.
    apply Z.quot_div_nonneg; [|lia].
    unfold Qle in Hx. simpl in Hx. lia. }
  rewrite E. split; [apply Qfloor_le | apply Qlt_floor].
Qed.

Lemma inject_Z_pos_neq (h : Z) : (0 < h)%Z -> ~ inject_Z h == 0.
Proof. intros H E. unfold Qeq in E. simpl in E. lia. Qed.

(** The two branches of the crop, over the integers. *)
Lemma crop_box_cases (w h : Z) :
  (0 < w)%Z -> (0 < h)%Z ->
  exists box, crop_box w h = Ok box
    /\ ((9 * h < 16 * w)%Z
        /\ y1 box = 0%Z /\ y2 box = h
        /\ x1 box = ((w - (x2 box - x1 box)) / 2)%Z
        /\ (16 * (x2 box - x1 box) <= 9 * h < 16 * (x2 box - x1 box + 1))%Z
        \/ (16 * w <= 9 * h)%Z
           /\ x1 box = 0%Z /\ x2 box = w
           /\ y1 box = ((h - (y2 box - y1 box)) / 2)%Z
           /\ (9 * (y2 box - y1 box) <= 16 * w < 9 * (y2 box - y1 box + 1))%Z).
Proof.
  intros Hw Hh. unfold crop_box, OUTPUT_RESOLUTION.
  rewrite py_div_ok by (now apply inject_Z_pos_neq). simpl rbind.
  rewrite (py_div_ok (inject_Z w)) by (now apply inject_Z_pos_neq).
  simpl rbind.
  set (ta := inject_Z 1080 / inject_Z 1920).
  assert (Hta : ta == 9 # 16) by reflexivity.
  assert (Hh' : 0 < inject_Z h).
  { change 0 with (inject_Z 0). now rewrite <- Zlt_Qlt. }
  assert (Hw' : 0 < inject_Z w).
  { change 0 with (inject_Z 0). now rewrite <- Zlt_Qlt. }
  assert (Hdiv : inject_Z w / inject_Z h * inject_Z h == inject_Z w).
  { field. lra. }
  destruct (Qltb ta (inject_Z w / inject_Z h)) eqn:E.
  - apply Qltb_lt in E. eexists. split; [reflexivity|]. left. simpl.
    assert (Hlt : (9 * h < 16 * w)%Z).
    { apply (Qmult_lt_compat_r _ _ (inject_Z h) Hh') in E.
      rewrite Hdiv, Hta in E.
      rewrite Zlt_Qlt, !inject_Z_mult.
      change (inject_Z 9) with 9. change (inject_Z 16) with 16. lra. }
    destruct (py_int_nonneg (inject_Z h * ta)) as [F1 F2].
    { rewrite Hta. lra. }
    set (new_w := py_int (inject_Z h * ta)) in *.
    rewrite Hta in F1, F2. rewrite inject_Z_plus in F2.
    change (inject_Z 1) with 1 in F2.
    assert (G1 : (16 * new_w <= 9 * h)%Z).
    { rewrite Zle_Qle, !inject_Z_mult.
      change (inject_Z 9) with 9. change (inject_Z 16) with 16. lra. }
    assert (G2 : (9 * h < 16 * (new_w + 1))%Z).
    { rewrite Zlt_Qlt, !inject_Z_mult, inject_Z_plus.
      change (inject_Z 9) with 9. change (inject_Z 16) with 16.
      change (inject_Z 1) with 1. lra. }
    replace ((w - new_w) / 2 + new_w - (w - new_w) / 2)%Z with new_w by lia.
    repeat split; lia.
  - apply Qltb_ge in E.
    eexists. split; [reflexivity|]. right. simpl.
    assert (Hle : (16 * w <= 9 * h)%Z).
    { apply (Qmult_le_compat_r _ _ (inject_Z h)) in E; [|lra].
      rewrite Hdiv, Hta in E.
      rewrite Zle_Qle, !inject_Z_mult.
      change (inject_Z 9) with 9. change (inject_Z 16) with 16. lra. }
    assert (Hsc : inject_Z w / ta == inject_Z w * (16 # 9)).
    { rewrite Hta. field. }
    destruct (py_int_nonneg (inject_Z w / ta)) as [F1 F2].
    { rewrite Hsc. lra. }
    set (new_h := py_int (inject_Z w / ta)) in *.
    rewrite Hsc in F1, F2. rewrite inject_Z_plus in F2.
    change (inject_Z 1) with 1 in F2.
    assert (G1 : (9 * new_h <= 16 * w)%Z).
    { rewrite Zle_Qle, !inject_Z_mult.
      change (inject_Z 9) with 9. change (inject_Z 16) with 16. lra. }
    assert (G2 : (16 * w < 9 * (new_h + 1))%Z).
    { rewrite Zlt_Qlt, !inject_Z_mult, inject_Z_plus.
      change (inject_Z 9) with 9. change (inject_Z 16) with 16.
      change (inject_Z 1) with 1. lra. }
    replace ((h - new_h) / 2 + new_h - (h - new_h) / 2)%Z with new_h by lia.
    repeat split; lia.
Qed.

Lemma half_margin (a : Z) :
  (0 <= a)%Z -> (0 <= a / 2 /\ 0 <= (a - a / 2) - a / 2 <= 1)%Z.
Proof.
  intros Ha. pose proof (Z.div_mod a 2 ltac:(lia)).
  pose proof (Z.mod_pos_bound a 2 ltac:(lia)). lia.
Qed.

(** X8. For a frame of positive width and height the crop box lies inside
    the frame, keeps one dimension whole (the height of a frame wider than
    9:16, the width otherwise) and is centred in the other: the two margins
    differ by at most one pixel, the larger one on the right or at the
    bottom. *)
Theorem crop_box_inside_and_centred (w h : Z) :
  (0 < w)%Z -> (0 < h)%Z ->
  exists box,
    crop_box w h = Ok box
    /\ (0 <= x1 box <= x2 box)%Z /\ (x2 box <= w)%Z
    /\ (0 <= y1 box <= y2 box)%Z /\ (y2 box <= h)%Z
    /\ (if (9 * h <? 16 * w)%Z then y1 box = 0%Z /\ y2 box = h
        else x1 box = 0%Z /\ x2 box = w)
    /\ (0 <= (w - x2 box) - x1 box <= 1)%Z
    /\ (0 <= (h - y2 box) - y1 box <= 1)%Z.
Proof.
  intros Hw Hh. destruct (crop_box_cases w h Hw Hh) as (box & Hb & Hc).
  exists box. split; [exact Hb|].
  destruct Hc as [(Hlt & Hy1 & Hy2 & Hx & Ha)|(Hle & Hx1 & Hx2 & Hy & Ha)].
  - assert ((9 * h <? 16 * w)%Z = true) as -> by (apply Z.ltb_lt; lia).
    set (cw := (x2 box - x1 box)%Z) in *.
    assert (0 <= cw < w)%Z by lia.
    pose proof (half_margin (w - cw) ltac:(lia)) as Hm.
    repeat split; lia.
  - assert ((9 * h <? 16 * w)%Z = false) as -> by (apply Z.ltb_ge; lia).
    set (ch := (y2 box - y1 box)%Z) in *.
    assert (0 <= ch <= h)%Z by lia.
    pose proof (half_margin (h - ch) ltac:(lia)) as Hm.
    repeat split; lia.
Qed.

(** X8, on a 1920 by 1080 frame: the box is 607 pixels wide, from 656 to
    1263. *)
Lemma crop_box_inside_and_centred_witness :
  (0 < 1920)%Z /\ (0 < 1080)%Z
  /\ exists box,
       crop_box 1920 1080 = Ok box
       /\ (0 <= x1 box <= x2 box)%Z /\ (x2 box <= 1920)%Z
       /\ (0 <= y1 box <= y2 box)%Z /\ (y2 box <= 1080)%Z
       /\ (if (9 * 1080 <? 16 * 1920)%Z then y1 box = 0%Z /\ y2 box = 1080%Z
           else x1 box = 0%Z /\ x2 box = 1920%Z)
       /\ (0 <= (1920 - x2 box) - x1 box <= 1)%Z
       /\ (0 <= (1080 - y2 box) - y1 box <= 1)%Z.
Proof.
  assert (Hw : (0 < 1920)%Z) by reflexivity.
  assert (Hh : (0 < 1080)%Z) by reflexivity.
  split; [exact Hw|]. split; [exact Hh|].
  exact (crop_box_inside_and_centred 1920 1080 Hw Hh).
Defined.

(** X9. The crop box has the 9:16 aspect up to the truncation of one
    pixel: its width is the largest integer not above 9/16 of the height of
    a frame wider than 9:16, its height the largest integer not above 16/9
    of the width otherwise; a frame that is exactly 9:16 is kept whole. *)
Theorem crop_box_aspect (w h : Z) :
  (0 < w)%Z -> (0 < h)%Z ->
  exists box,
    crop_box w h = Ok box
    /\ (if (9 * h <? 16 * w)%Z
        then (16 * (x2 box - x1 box) <= 9 * (y2 box - y1 box)
              < 16 * (x2 box - x1 box + 1))%Z
        else (9 * (y2 box - y1 box) <= 16 * (x2 box - x1 box)
              < 9 * (y2 box - y1 box + 1))%Z)
    /\ ((16 * w = 9 * h)%Z -> box = mkCropBox 0 0 w h).
Proof.
  intros Hw Hh. destruct (crop_box_cases w h Hw Hh) as (box & Hb & Hc).
  exists box. split; [exact Hb|].
  destruct Hc as [(Hlt & Hy1 & Hy2 & Hx & Ha)|(Hle & Hx1 & Hx2 & Hy & Ha)].
  - assert ((9 * h <? 16 * w)%Z = true) as -> by (apply Z.ltb_lt; lia).
    split; [lia | intros E; lia].
  - assert ((9 * h <? 16 * w)%Z = false) as -> by (apply Z.ltb_ge; lia).
    split; [lia|]. intros E.
    assert (y2 box - y1 box = h)%Z as Hch by lia.
    rewrite Hch in Hy. replace (h - h)%Z with 0%Z in Hy by lia.
    change (0 / 2)%Z with 0%Z in Hy.
    destruct box as [a b c e]. simpl in *. f_equal; lia.
Qed.

(** X9, on a 1080 by 1920 frame, which is kept whole. *)
Lemma crop_box_aspect_witness :
  (0 < 1080)%Z /\ (0 < 1920)%Z
  /\ exists box,
       crop_box 1080 1920 = Ok box
       /\ (if (9 * 1920 <? 16 * 1080)%Z
           then (16 * (x2 box - x1 box) <= 9 * (y2 box - y1 box)
                 < 16 * (x2 box - x1 box + 1))%Z
           else (9 * (y2 box - y1 box) <= 16 * (x2 box - x1 box)
                 < 9 * (y2 box - y1 box + 1))%Z)
       /\ ((16 * 1080 = 9 * 1920)%Z -> box = mkCropBox 0 0 1080 1920).
Proof.
  assert (Hw : (0 < 1080)%Z) by reflexivity.
  assert (Hh : (0 < 1920)%Z) by reflexivity.
  split; [exact Hw|]. split; [exact Hh|].
  exact (crop_box_aspect 1080 1920 Hw Hh).
Defined.

(** ** Reading a well-formed remote response *)

Lemma py_sub_ok (a b : pyval) (q : Q) :
  py_sub a b = Ok q ->
  exists x y, as_number a = Ok x /\ as_number b = Ok y /\ q = x - y.
Proof.
  unfold py_sub.
  destruct (as_number a) as [x|]; simpl; [|discriminate].
  destruct (as_number b) as [y|]; simpl; [|discriminate].
  intros H. exists x, y. split; [reflexivity|]. split; [reflexivity|].
  destruct a, b; try (injection H as <-; reflexivity);
    destruct (float_overflows _); try discriminate;
    injection H as <-; reflexivity.
Qed.

Lemma remote_item_ok (acc out : list (Segment pyval)) (item : pyval) :
  remote_item acc item = Ok out ->
  exists seg, out = acc ++ [seg] /\ item_matches item seg.
Proof.
  unfold remote_item, item_matches.
  destruct (py_getitem item "start_time") as [sv|]; simpl; [|discriminate].
  destruct (py_getitem item "end_time") as [ev|]; simpl; [|discriminate].
  destruct (py_sub ev sv) as [q|] eqn:Eq; simpl; [|discriminate].
  apply py_sub_ok in Eq as (e & s & -> & -> & ->). simpl.
  destruct (py_get item "action_score" _) as [sc|]; simpl; [|discriminate].
  destruct (py_get item "confidence" _) as [cf|]; simpl; [|discriminate].
  intros [= <-]. eexists. split; [reflexivity|].
  exists s, e. simpl. repeat split; reflexivity.
Qed.

Lemma for_each_remote_ok (items : list pyval) (acc out : list (Segment pyval)) :
  for_each remote_item items acc = Ok out ->
  exists segs, out = acc ++ segs /\ Forall2 item_matches items segs.
Proof.
  revert acc. induction items as [|item items IH]; intros acc; simpl.
  - intros [= <-]. exists []. split; [now rewrite app_nil_r | constructor].
  - destruct (remote_item acc item) as [acc'|] eqn:E; simpl; [|discriminate].
    apply remote_item_ok in E as (seg & -> & Hm).
    intros H. apply IH in H as (segs & -> & Hall).
    exists (seg :: segs). split; [now rewrite <- app_assoc|].
    constructor; assumption.
Qed.

(** An item with numbers under [start_time] and [end_time] whose difference
    can be taken appends one segment. *)
Lemma remote_item_readable (segments : list (Segment pyval)) (seg : pyval) :
  item_unreadable seg = false -> item_overflows seg = false ->
  exists s, remote_item segments seg = Ok (segments ++ [s]).
Proof.
  unfold item_unreadable, item_overflows, remote_item, py_getitem, py_sub.
  destruct seg as [| | | | | |d]; try discriminate.
  destruct (dict_lookup d "start_time") as [sv|]; [|discriminate].
  destruct (dict_lookup d "end_time") as [ev|]; [|discriminate].
  intros Hn Ho. apply negb_false_iff, andb_true_iff in Hn as [Hs He].
  destruct sv; try discriminate; destruct ev; try discriminate;
    simpl; try rewrite Ho; simpl; eauto.
Qed.

Lemma for_each_remote_readable (items : list pyval)
  (acc : list (Segment pyval)) :
  existsb item_unreadable items = false ->
  existsb item_overflows items = false ->
  exists segs, for_each remote_item items acc = Ok (acc ++ segs).
Proof.
  revert acc. induction items as [|seg items IH]; intros acc; simpl.
  - intros _ _. exists []. now rewrite app_nil_r.
  - intros Hu Ho. apply orb_false_elim in Hu as [Hu Hus].
    apply orb_false_elim in Ho as [Ho Hos].
    destruct (remote_item_readable acc seg Hu Ho) as (s0 & ->). simpl.
    destruct (IH (acc ++ [s0]) Hus Hos) as (segs & ->).
    exists (s0 :: segs). now rewrite <- app_assoc.
Qed.

(** ** The clips the pipeline cuts *)



Lemma clip_bounds_within_limits {V : Type} (video_duration : Q)
  (segment : Segment V) :
  inject_Z MIN_CLIP_LENGTH <= end_ segment - start segment ->
  end_ segment - start segment <= inject_Z MAX_CLIP_LENGTH ->
  clip_bounds video_duration segment = (start segment, end_ segment).
Proof.
  intros H1 H2. unfold clip_bounds.
  apply Qltb_ge in H1. apply Qltb_ge in H2. now rewrite H1, H2.
Qed.

(** X12. When detection found nothing and at least one clip is asked for,
    the pipeline cuts exactly one clip, the first [TARGET_CLIP_LENGTH]
    seconds of the video or the whole video when it is shorter. *)
Theorem fallback_clip (video_duration : Q) (num_clips : Z) :
  0 <= video_duration -> (1 <= num_clips)%Z ->
  planned_clips [] video_duration num_clips
  = [(0, py_min2 (inject_Z TARGET_CLIP_LENGTH) video_duration)].
Proof.
  intros Hv Hn. unfold planned_clips, segments_or_fallback.
  assert (Hs : forall x : Segment pyval, py_slice [x] 0 num_clips = [x]).
  { intros x. unfold py_slice, slice_bound. simpl length.
    destruct (num_clips <? 0)%Z eqn:E; [apply Z.ltb_lt in E; lia|].
    simpl. replace (Z.min num_clips (Z.of_nat 1)) with 1%Z by lia.
    reflexivity. }
  rewrite Hs. simpl map. f_equal.
  set (e := py_min2 (inject_Z TARGET_CLIP_LENGTH) video_duration).
  destruct (py_min2_spec (inject_Z TARGET_CLIP_LENGTH) video_duration)
    as (E1 & E2 & E3). fold e in E1, E2, E3.
  unfold clip_bounds. simpl start. simpl end_.
  pose proof (half_twice (inject_Z MIN_CLIP_LENGTH - (e - 0))) as Hext.
  set (extension := (inject_Z MIN_CLIP_LENGTH - (e - 0)) / 2) in *.
  assert (HT : inject_Z TARGET_CLIP_LENGTH == 30) by reflexivity.
  assert (HM : inject_Z MIN_CLIP_LENGTH == 15) by reflexivity.
  assert (HX : inject_Z MAX_CLIP_LENGTH == 60) by reflexivity.
  destruct (Qltb (e - 0) (inject_Z MIN_CLIP_LENGTH)) eqn:L1.
  - apply Qltb_lt in L1.
    assert (Hev : e = video_duration).
    { unfold e, py_min2.
      destruct (Qltb video_duration (inject_Z TARGET_CLIP_LENGTH)) eqn:L;
        [reflexivity|].
      apply Qltb_ge in L. exfalso. unfold e, py_min2 in L1.
      apply Qltb_ge in L. rewrite L in L1. lra. }
    f_equal.
    + unfold py_max2. destruct (Qltb 0 (0 - extension)) eqn:L; [|reflexivity].
      apply Qltb_lt in L. lra.
    + rewrite Hev. unfold py_min2.
      destruct (Qltb (video_duration + extension) video_duration) eqn:L;
        [|reflexivity].
      apply Qltb_lt in L. rewrite Hev in *. lra.
  - apply Qltb_ge in L1.
    destruct (Qltb (inject_Z MAX_CLIP_LENGTH) (e - 0)) eqn:L2; [|reflexivity].
    apply Qltb_lt in L2. lra.
Qed.

(** X12, on a 10 s video with the default of three clips. *)
Lemma fallback_clip_witness :
  0 <= 10 /\ (1 <= 3)%Z
  /\ planned_clips [] 10 3 = [(0, py_min2 (inject_Z TARGET_CLIP_LENGTH) 10)].
Proof.
  assert (Hv : 0 <= 10) by discriminate.
  assert (Hn : (1 <= 3)%Z) by discriminate.
  split; [exact Hv|]. split; [exact Hn|].
  exact (fallback_clip 10 3 Hv Hn).
Defined.

(** X13. Processing several URLs never fails as a whole: the result is the
    bundles of the URLs whose processing succeeded, in the order of the
    URLs, and a URL whose processing raises contributes nothing. *)
Theorem process_multiple_urls_skips_failures (Bundle : Type)
  (process_video : string -> Z -> result (list Bundle))
  (urls : list string) (num_clips_per_video : Z) :
  process_multiple_urls process_video urls num_clips_per_video
  = flat_map
      (fun url =>
         match process_video url num_clips_per_video with
         | Ok bundles => bundles
         | Raise _ => []
         end)
      urls.
Proof.
  unfold process_multiple_urls.
  assert (H : forall acc,
             fold_left
               (fun all_bundles url =>
                  match process_video url num_clips_per_video with
                  | Ok bundles => all_bundles ++ bundles
                  | Raise _ => all_bundles
                  end) urls acc
             = acc ++ flat_map
                        (fun url =>
                           match process_video url num_clips_per_video with
                           | Ok bundles => bundles
                           | Raise _ => []
                           end) urls).
  { induction urls as [|url urls IH]; intros acc; simpl.
    - now rewrite app_nil_r.
    - rewrite IH. destruct (process_video url num_clips_per_video); simpl.
      + now rewrite <- app_assoc.
      + reflexivity. }
  apply (H []).
Qed.

(** ** What every segment of the motion path satisfies *)

Lemma py_first_elem_of {A : Type} (l : list A) (x : A) :
  py_first l = Ok x -> x ∈ l.
Proof. destruct l; [discriminate|]. intros [= <-]. constructor. Qed.

Lemma py_last_elem_of {A : Type} (l : list A) (x : A) :
  py_last l = Ok x -> x ∈ l.
Proof.
  unfold py_last. destruct (last l) eqn:E; [|discriminate].
  intros [= <-]. now apply last_Some_elem_of.
Qed.

(** Segments stay within the time range of the samples. *)
Lemma window_segments_within (ms : list Normalized) (window_size i : Z)
  (bound : Q) :
  Forall (fun n => 0 <= Motion.time (sample n) <= bound) ms ->
  Forall (fun seg => 0 <= start seg /\ end_ seg <= bound)
    (window_segments ms window_size i).
Proof.
  intros Hms. rewrite Forall_forall in Hms.
  unfold window_segments, clamp_window.
  destruct (py_first _) as [f|] eqn:Ef; simpl; [|constructor].
  destruct (py_last _) as [l|] eqn:El; simpl; [|constructor].
  apply py_first_elem_of in Ef. apply py_last_elem_of in El.
  pose proof (Hms f (elem_of_sublist _ _ _ Ef (window_at_sublist _ _ _))) as Hf.
  pose proof (Hms l (elem_of_sublist _ _ _ El (window_at_sublist _ _ _))) as Hl.
  unfold extend_window.
  destruct (Qltb _ (inject_Z MIN_CLIP_LENGTH)).
  - destruct (py_last ms) as [m|] eqn:Em; simpl; [|constructor].
    apply py_last_elem_of in Em. pose proof (Hms m Em) as Hm.
    unfold accept_window. destruct (_ && _); simpl; constructor; [|constructor].
    simpl.
    match goal with
    | |- 0 <= py_max2 0 ?x /\ py_min2 ?a ?b <= _ =>
        destruct (py_max2_spec 0 x) as (M1 & _);
        destruct (py_min2_spec a b) as (N1 & _)
    end.
    split; lra.
  - simpl. unfold accept_window.
    destruct (_ && _); simpl; constructor; [|constructor].
    simpl. split; lra.
Qed.

Section PipelineMore.

Context {Frame Gray : Type}.
Variable cv2_VideoCapture : string -> VideoCapture Frame.
Variable to_gray : Frame -> result Gray.
Variable mean_flow_magnitude : Gray -> Gray -> result Q.
Variable np_sqrt : Q -> Q.
Variable open_rb : string -> result unit.
Variable requests_post :
  string -> option string -> string -> Z -> Z -> Z -> result Response.
Variable self : VideoProcessor.

Local Abbreviation detect_motion :=
  (_detect_segments_with_motion cv2_VideoCapture to_gray mean_flow_magnitude
     np_sqrt self).
Local Abbreviation local_path :=
  (motion_path cv2_VideoCapture to_gray mean_flow_magnitude np_sqrt self).
Local Abbreviation detect_api :=
  (_detect_segments_with_api cv2_VideoCapture to_gray mean_flow_magnitude
     np_sqrt open_rb requests_post self).

(** A property of the segments of every window holds of the result. *)
Lemma detect_motion_Forall (P : Segment Q -> Prop) path d :
  (forall raw ms window_size i,
     collect_motion_scores to_gray mean_flow_magnitude self
       (cv2_VideoCapture path) = Ok raw ->
     normalize_scores raw = Ok ms ->
     Forall P (window_segments ms window_size i)) ->
  returns (detect_motion path d) (Forall P).
Proof.
  intros HP.
  destruct (detect_motion_inv cv2_VideoCapture to_gray mean_flow_magnitude
              np_sqrt self path d) as (segs & -> & H).
  simpl.
  destruct H as [->|(raw & ms & c & _ & Hraw & Hms & _ & Hc & ->)];
    [constructor|].
  eapply Forall_sublist_of; [apply remove_overlapping_sublist|].
  apply sorted_by_score_Forall.
  rewrite collect_segments_eq in Hc.
  destruct (window_size_of _ _ _) as [ws|]; simpl in Hc; [|discriminate].
  destruct (py_range _ _ _) as [idxs|]; simpl in Hc; [|discriminate].
  injection Hc as <-. apply Forall_flat_map, List.Forall_forall.
  intros i _. eapply HP; eauto.
Qed.

(** X3. The motion path returns its segments highest score first. *)
Theorem motion_segments_by_score path d :
  returns (detect_motion path d) (StronglySorted by_score_desc).
Proof.
  destruct (detect_motion_inv cv2_VideoCapture to_gray mean_flow_magnitude
              np_sqrt self path d) as (segs & -> & H).
  simpl. destruct H as [->|(raw & ms & c & _ & _ & _ & _ & _ & ->)];
    [constructor|].
  eapply StronglySorted_sublist_of; [apply remove_overlapping_sublist|].
  apply sorted_by_score_sorted.
Qed.

(** X4. Every segment of the motion path has a score between 0 and 1 and
    a confidence of [min(1.0, score * 1.5)], which lies between the score
    and 1. *)
Theorem motion_scores_and_confidence path d :
  returns (detect_motion path d)
    (Forall (fun seg =>
               0 <= score seg <= 1
               /\ confidence seg = py_min2 1 (score seg * (3 # 2))
               /\ score seg <= confidence seg <= 1)).
Proof.
  apply detect_motion_Forall. intros raw ms ws i _ Hms.
  apply normalize_scores_inv in Hms as [_ Hunit].
  eapply Forall_impl; [apply (window_segments_unit ms ws i Hunit)|].
  simpl. intros seg [Hs Hc]. split; [exact Hs|]. split; [exact Hc|].
  rewrite Hc.
  destruct (py_min2_spec 1 (score seg * (3 # 2))) as (N1 & N2 & [N3|N3]);
    split; lra.
Qed.

(** X7. With a positive frame rate every segment of the motion path lies
    within the frames that were read: it starts at or after 0 and ends at or
    before the time of the last frame read. *)
Theorem motion_segments_within_video path d :
  0 < CAP_PROP_FPS (cv2_VideoCapture path) ->
  returns (detect_motion path d)
    (Forall (fun seg =>
               0 <= start seg
               /\ end_ seg
                  <= inject_Z
                       (Z.of_nat (length (frames (cv2_VideoCapture path))) - 1)
                     / CAP_PROP_FPS (cv2_VideoCapture path))).
Proof.
  intros Hfps. apply detect_motion_Forall. intros raw ms ws i Hraw Hms.
  apply window_segments_within.
  apply collect_motion_scores_inv in Hraw as [Hf Ht].
  apply normalize_scores_inv in Hms as [Hs _]. subst raw.
  rewrite Forall_forall. intros n Hn.
  assert (Hin : In (Motion.frame (sample n))
                  (sampled_from (frame_sample_rate self) 0
                     (length (frames (cv2_VideoCapture path))))).
  { assert (In (Motion.frame (sample n)) (map Motion.frame (map sample ms))) as H.
    { apply in_map, in_map. now apply list_elem_of_In. }
    rewrite Hf in H.
    destruct (sampled_from _ _ _); [destruct H | now right]. }
  apply sampled_from_In in Hin as [[H0 H1] _].
  rewrite Forall_forall in Ht.
  destruct (Ht (sample n)) as [-> _].
  { apply list_elem_of_In, in_map. now apply list_elem_of_In. }
  set (fps := CAP_PROP_FPS (cv2_VideoCapture path)) in *.
  assert (Hinv : 0 < / fps) by (now apply Qinv_lt_0_compat).
  unfold Qdiv. split.
  - apply Qmult_le_0_compat; [|lra].
    change 0 with (inject_Z 0). rewrite <- Zle_Qle. lia.
  - apply Qmult_le_compat_r; [|lra]. rewrite <- Zle_Qle. lia.
Qed.

(** X11. The limits the pipeline applies before cropping leave every
    segment of the motion path as it is: the clip cut for such a segment
    starts and ends where the segment does. *)
Theorem pipeline_keeps_motion_segments path d (video_duration : Q) :
  returns (local_path path d)
    (Forall (fun seg =>
               clip_bounds video_duration seg = (start seg, end_ seg))).
Proof.
  pose proof (detect_motion_limits cv2_VideoCapture to_gray
                mean_flow_magnitude np_sqrt self path d) as H.
  unfold motion_path.
  destruct (detect_motion path d) as [segs|]; simpl in *; [|exact H].
  apply Forall_map. eapply Forall_impl; [exact H|].
  intros seg [[Hmin Hmax] Heq].
  apply (clip_bounds_within_limits video_duration (to_dict seg)); simpl; lra.
Qed.

(** X14. A 200 response whose items are all readable, and none of which
    sets a [float] against an [int] that no [float] can hold (on which the
    subtraction of line 108 raises [OverflowError]), is returned item by
    item: the result has one segment per item, in the order of the items,
    with the item's [start_time] and [end_time], their difference as
    duration, and the item's [action_score] and [confidence], each 0.5 when
    the item lacks it. *)
Theorem remote_items_one_to_one path d response body items :
  open_rb path = Ok tt ->
  requests_post (clipping_api_url self ++ "/analyze")%string
    (clipping_api_key self) path d MIN_CLIP_LENGTH MAX_CLIP_LENGTH
  = Ok response ->
  status_code response = 200%Z ->
  json response = Ok (VDict body) ->
  dict_lookup body "segments" = Some (VList items) ->
  existsb item_unreadable items = false ->
  existsb item_overflows items = false ->
  exists segs,
    detect_api path d = Ok segs /\ Forall2 item_matches items segs.
Proof.
  intros Ho Hp Hs Hj Hl Hr Hv.
  unfold _detect_segments_with_api, api_body, try_except.
  rewrite Ho. simpl. rewrite Hp. simpl. rewrite Hs. simpl.
  unfold parse_response. rewrite Hj. simpl. rewrite Hl. simpl.
  destruct (for_each_remote_readable items [] Hr Hv) as (segs & Hsegs).
  rewrite Hsegs. exists segs. split; [reflexivity|].
  apply for_each_remote_ok in Hsegs as (segs' & E & Hall).
  simpl in E. now subst.
Qed.

End PipelineMore.

(** X7, on the video with two flashes. *)
Lemma motion_segments_within_video_witness :
  0 < CAP_PROP_FPS (two_burst_video "clip.mp4")
  /\ returns
       (_detect_segments_with_motion two_burst_video luma_gray luma_flow
          sqrt_approx (local_processor 1) "clip.mp4" 2)
       (Forall (fun seg =>
                  0 <= start seg
                  /\ end_ seg
                     <= inject_Z
                          (Z.of_nat (length (frames (two_burst_video "clip.mp4")))
                           - 1)
                        / CAP_PROP_FPS (two_burst_video "clip.mp4"))).
Proof.
  assert (H : 0 < CAP_PROP_FPS (two_burst_video "clip.mp4")) by reflexivity.
  split; [exact H|].
  exact (motion_segments_within_video two_burst_video luma_gray luma_flow
           sqrt_approx (local_processor 1) "clip.mp4" 2 H).
Defined.

(** X14, on the response with the two items [0, 10] and [5, 15]. *)
Lemma remote_items_one_to_one_witness :
  let items :=
    [VDict [("start_time"%string, VInt 0); ("end_time"%string, VInt 10);
            ("action_score"%string, VNum (9 # 10));
            ("confidence"%string, VNum (8 # 10))];
     VDict [("start_time"%string, VInt 5); ("end_time"%string, VInt 15);
            ("action_score"%string, VNum (7 # 10));
            ("confidence"%string, VNum (6 # 10))]] in
  let body := [("segments"%string, VList items)] in
  let response := mkResponse 200 (Ok overlapping_body) in
  readable "clip.mp4" = Ok tt
  /\ service_answers 200 overlapping_body
       (clipping_api_url (remote_processor 1) ++ "/analyze")%string
       (clipping_api_key (remote_processor 1)) "clip.mp4" 2
       MIN_CLIP_LENGTH MAX_CLIP_LENGTH
     = Ok response
  /\ status_code response = 200%Z
  /\ json response = Ok (VDict body)
  /\ dict_lookup body "segments" = Some (VList items)
  /\ existsb item_unreadable items = false
  /\ existsb item_overflows items = false
  /\ exists segs,
       _detect_segments_with_api burst_video luma_gray luma_flow sqrt_approx
         readable (service_answers 200 overlapping_body)
         (remote_processor 1) "clip.mp4" 2
       = Ok segs
       /\ Forall2 item_matches items segs.
Proof.
  intros items body response.
  repeat (split; [reflexivity|]).
  exact (remote_items_one_to_one burst_video luma_gray luma_flow sqrt_approx
           readable (service_answers 200 overlapping_body)
           (remote_processor 1) "clip.mp4" 2 response body items
           eq_refl eq_refl eq_refl eq_refl eq_refl eq_refl eq_refl).
Defined.

(** The item that sets the float 0.5 against the integer [10^309]: line 108
    raises [OverflowError] and the result is the motion path's. *)
Example overflowing_item_falls_back :
  parse_response (mkResponse 200 (Ok overflowing_body)) = Raise OverflowError
  /\ _detect_segments_with_api burst_video luma_gray luma_flow sqrt_approx
       readable (service_answers 200 overflowing_body)
       (remote_processor 1) "clip.mp4" 2
     = motion_path burst_video luma_gray luma_flow sqrt_approx
         (remote_processor 1) "clip.mp4" 2.
Proof. split; vm_compute; reflexivity. Qed.

(** ** How many clips the pipeline cuts *)

Lemma py_slice_prefix_length {A : Type} (l : list A) (n : Z) :
  (0 <= n)%Z ->
  length (py_slice l 0 n) = Z.to_nat (Z.min n (Z.of_nat (length l))).
Proof.
  intros Hn. unfold py_slice, slice_bound.
  destruct (n <? 0)%Z eqn:E; [apply Z.ltb_lt in E; lia|].
  change (0 <? 0)%Z with false. cbv iota.
  rewrite length_take, length_drop. lia.
Qed.

(** X15. For a number of clips that is not negative the pipeline cuts
    [min(num_clips, len(segments))] clips, the fallback counting as one
    segment; so it cuts at least one clip whenever at least one is asked
    for. *)
Theorem planned_clips_count (segments : list (Segment pyval))
  (video_duration : Q) (num_clips : Z) :
  (0 <= num_clips)%Z ->
  length (planned_clips segments video_duration num_clips)
  = Z.to_nat (Z.min num_clips (Z.max 1 (Z.of_nat (length segments))))
  /\ ((1 <= num_clips)%Z ->
      (1 <= length (planned_clips segments video_duration num_clips))%nat).
Proof.
  intros Hn. unfold planned_clips.
  rewrite length_map, py_slice_prefix_length by exact Hn.
  assert (Z.of_nat (length (segments_or_fallback segments video_duration))
          = Z.max 1 (Z.of_nat (length segments))) as ->.
  { destruct segments; simpl length; lia. }
  split; [reflexivity | lia].
Qed.

(** X15, on the two remote segments with the default of three clips. *)
Lemma planned_clips_count_witness :
  (0 <= 3)%Z
  /\ (length
        (planned_clips
           [mkSegment 0 10 10 (VNum (9 # 10)) (VNum (8 # 10));
            mkSegment 5 15 10 (VNum (7 # 10)) (VNum (6 # 10))] 60 3)
      = Z.to_nat (Z.min 3 (Z.max 1 (Z.of_nat 2)))
      /\ ((1 <= 3)%Z ->
          (1 <= length
                  (planned_clips
                     [mkSegment 0 10 10 (VNum (9 # 10)) (VNum (8 # 10));
                      mkSegment 5 15 10 (VNum (7 # 10)) (VNum (6 # 10))]
                     60 3))%nat)).
Proof.
  assert (Hn : (0 <= 3)%Z) by discriminate.
  split; [exact Hn|].
  exact (planned_clips_count
           [mkSegment 0 10 10 (VNum (9 # 10)) (VNum (8 # 10));
            mkSegment 5 15 10 (VNum (7 # 10)) (VNum (6 # 10))] 60 3 Hn).
Defined.

(** ** How many motion samples a video gives, and videos too short or too
    still to give a segment *)

Lemma ceil_div_succ (k rate : Z) :
  (0 < rate)%Z -> (0 <= k)%Z ->
  ((k + 1 + rate - 1) / rate
   = (k + rate - 1) / rate + (if (k mod rate =? 0)%Z then 1 else 0))%Z.
Proof.
  intros Hr Hk.
  pose proof (Z.div_mod k rate ltac:(lia)) as Hk1.
  pose proof (Z.mod_pos_bound k rate Hr) as Hk2.
  set (q := (k / rate)%Z) in *. set (r := (k mod rate)%Z) in *.
  destruct (r =? 0)%Z eqn:E.
  - apply Z.eqb_eq in E.
    replace (k + 1 + rate - 1)%Z with (1 * rate + k)%Z by lia.
    rewrite Z.div_add_l by lia.
    assert (k / rate = q)%Z as -> by reflexivity.
    assert ((k + rate - 1) / rate = q)%Z as ->; [|lia].
    symmetry. apply Z.div_unique with (r := (rate - 1)%Z); lia.
  - apply Z.eqb_neq in E.
    assert ((k + 1 + rate - 1) / rate = q + 1)%Z as ->.
    { symmetry. apply Z.div_unique with (r := r); lia. }
    assert ((k + rate - 1) / rate = q + 1)%Z as ->; [|lia].
    symmetry. apply Z.div_unique with (r := (r - 1)%Z); lia.
Qed.

Lemma sampled_from_length (rate k : Z) (n : nat) :
  (0 < rate)%Z -> (0 <= k)%Z ->
  Z.of_nat (length (sampled_from rate k n))
  = ((k + Z.of_nat n + rate - 1) / rate - (k + rate - 1) / rate)%Z.
Proof.
  intros Hr. revert k. induction n as [|n IH]; intros k Hk.
  - cbn [sampled_from length]. change (Z.of_nat 0) with 0%Z.
    rewrite Z.add_0_r. lia.
  - cbn [sampled_from].
    pose proof (ceil_div_succ k rate Hr Hk) as Hc.
    replace (k + Z.of_nat (S n) + rate - 1)%Z
      with (k + 1 + Z.of_nat n + rate - 1)%Z by lia.
    destruct (k mod rate =? 0)%Z.
    + cbn [length]. rewrite Nat2Z.inj_succ, IH by lia. lia.
    + rewrite IH by lia. lia.
Qed.

Section SampleCount.

Context {Frame Gray : Type}.
Variable cv2_VideoCapture : string -> VideoCapture Frame.
Variable to_gray : Frame -> result Gray.
Variable mean_flow_magnitude : Gray -> Gray -> result Q.
Variable np_sqrt : Q -> Q.
Variable self : VideoProcessor.

Local Abbreviation detect_motion :=
  (_detect_segments_with_motion cv2_VideoCapture to_gray mean_flow_magnitude
     np_sqrt self).

Lemma motion_sample_count_Z (cap : VideoCapture Frame) (raw : list Motion.t) :
  (0 < frame_sample_rate self)%Z ->
  collect_motion_scores to_gray mean_flow_magnitude self cap = Ok raw ->
  Z.of_nat (length raw)
  = Z.max 0
      ((Z.of_nat (length (frames cap)) + frame_sample_rate self - 1)
       / frame_sample_rate self - 1).
Proof.
  intros Hr H. apply collect_motion_scores_inv in H as [Hf _].
  apply (f_equal (@length Z)) in Hf. rewrite length_map in Hf. rewrite Hf.
  pose proof (sampled_from_length (frame_sample_rate self) 0
                (length (frames cap)) Hr ltac:(lia)) as Hl.
  rewrite Z.add_0_l in Hl.
  replace ((0 + frame_sample_rate self - 1) / frame_sample_rate self)%Z
    with 0%Z in Hl by (symmetry; apply Z.div_small; lia).
  destruct (sampled_from _ _ _) as [|x l]; simpl in *; lia.
Qed.

(** X16. With a positive stride, a frame loop that completes on [N] frames
    gives [ceil(N / frame_sample_rate) - 1] motion samples, and none when no
    frame was read. *)
Theorem motion_sample_count (cap : VideoCapture Frame) (raw : list Motion.t) :
  (0 < frame_sample_rate self)%Z ->
  collect_motion_scores to_gray mean_flow_magnitude self cap = Ok raw ->
  Z.of_nat (length raw)
  = Z.max 0
      ((Z.of_nat (length (frames cap)) + frame_sample_rate self - 1)
       / frame_sample_rate self - 1).
Proof. apply motion_sample_count_Z. Qed.

(** X17. A video that gives no more motion samples than the window is long
    yields no segment: with a positive stride, when
    [ceil(N / frame_sample_rate) - 1 <= window_size] for the [N] frames
    read, the motion path returns the empty sequence. *)
Theorem short_video_yields_nothing path d ws :
  (0 < frame_sample_rate self)%Z ->
  window_size_of self (CAP_PROP_FPS (cv2_VideoCapture path)) d = Ok ws ->
  ((Z.of_nat (length (frames (cv2_VideoCapture path)))
    + frame_sample_rate self - 1) / frame_sample_rate self - 1 <= ws)%Z ->
  detect_motion path d = Ok [].
Proof.
  intros Hr Hw Hn.
  destruct (detect_motion_inv cv2_VideoCapture to_gray mean_flow_magnitude
              np_sqrt self path d) as (segs & Hd & H).
  rewrite Hd. f_equal.
  destruct H as [->|(raw & ms & c & _ & Hraw & Hms & Hne & Hc & ->)];
    [reflexivity|].
  assert (Hlen : (Z.of_nat (length ms) <= Z.max 0 ws)%Z).
  { apply normalize_scores_inv in Hms as [Hs _].
    apply (f_equal (@length Motion.t)) in Hs. rewrite length_map in Hs.
    rewrite Hs, (motion_sample_count_Z _ _ Hr Hraw). lia. }
  assert (c = []) as ->; [|reflexivity].
  destruct (Z_le_gt_dec (step_size_of ws) 0) as [Hs|Hs].
  - rewrite (collect_segments_no_step _ _ _ _ _ _ Hw Hs) in Hc.
    destruct (step_size_of ws =? 0)%Z; [discriminate | now injection Hc].
  - rewrite collect_segments_eq, Hw in Hc. simpl in Hc.
    destruct (py_range _ _ _) as [idxs|] eqn:Er; simpl in Hc; [|discriminate].
    rewrite (py_range_nil _ _ _ _ Er) in Hc; [now injection Hc|].
    assert ((0 <? step_size_of ws)%Z = true) as -> by (apply Z.ltb_lt; lia).
    pose proof (div2_pos ws ltac:(unfold step_size_of in Hs; lia)). lia.
Qed.

(** X18. When the square root is never negative, a video whose motion
    scores are all equal yields no segment: every normalized score is 0, so
    no window average is above the threshold. *)
Theorem still_video_yields_nothing path d raw c :
  (forall x, 0 <= np_sqrt x) ->
  collect_motion_scores to_gray mean_flow_magnitude self
    (cv2_VideoCapture path) = Ok raw ->
  Forall (fun m => Motion.score m == c) raw ->
  detect_motion path d = Ok [].
Proof.
  intros Hsqrt Hraw Hsame.
  destruct (detect_motion_inv cv2_VideoCapture to_gray mean_flow_magnitude
              np_sqrt self path d) as (segs & Hd & H).
  rewrite Hd. f_equal.
  destruct H as [->|(raw' & ms & cands & _ & Hraw' & Hms & Hne & Hc & ->)];
    [reflexivity|].
  rewrite Hraw in Hraw'. injection Hraw' as <-.
  assert (Hzero : Forall (fun n => normalized_score n == 0) ms).
  { unfold normalize_scores in Hms.
    destruct raw as [|m raw]; [discriminate|].
    simpl py_max in Hms. simpl py_min in Hms. simpl rbind in Hms.
    destruct (fold_min_spec (map Motion.score raw) (Motion.score m))
      as (Hlin & _ & _).
    destruct (fold_max_spec (map Motion.score raw) (Motion.score m))
      as (Hhin & _ & _).
    set (lo := fold_left _ (map Motion.score raw) (Motion.score m)) in *.
    set (hi := fold_left (fun acc y => if Qltb acc y then y else acc)
                 (map Motion.score raw) (Motion.score m)) in *.
    assert (Hscores : forall x, In x (Motion.score m :: map Motion.score raw)
                                -> x == c).
    { intros x Hx. change (In x (map Motion.score (m :: raw))) in Hx.
      apply in_map_iff in Hx as (y & <- & Hy).
      rewrite List.Forall_forall in Hsame. now apply Hsame. }
    pose proof (Hscores lo Hlin) as Hlo. pose proof (Hscores hi Hhin) as Hhi.
    injection Hms as <-.
    change (Forall (fun n => normalized_score n == 0)
              (map (fun x => mkNormalized x
                                ((Motion.score x - lo) / score_range hi lo))
                 (m :: raw))).
    apply Forall_map. eapply Forall_impl; [exact Hsame|]. simpl.
    intros x Hx.
    assert (Hz : Motion.score x - lo == 0) by lra. rewrite Hz.
    unfold Qdiv. ring. }
  assert (Hsum : forall l : list Normalized,
             Forall (fun n => normalized_score n == 0) l ->
             Qsum (map normalized_score l) == 0).
  { induction 1 as [|x l Hx _ IH]; simpl; [reflexivity|].
    fold (Qsum (map normalized_score l)). lra. }
  assert (Hmean : forall l : list Normalized,
             Forall (fun n => normalized_score n == 0) l ->
             np_mean (map normalized_score l) == 0).
  { intros l Hl. unfold np_mean. rewrite (Hsum l Hl). unfold Qdiv. ring. }
  assert (Hthr : 0 <= threshold_of np_sqrt ms).
  { unfold threshold_of, np_std. rewrite (Hmean ms Hzero).
    pose proof (Hsqrt (np_var (map normalized_score ms))). lra. }
  rewrite collect_segments_eq in Hc.
  destruct (window_size_of _ _ _) as [ws|]; simpl in Hc; [|discriminate].
  destruct (py_range _ _ _) as [idxs|]; simpl in Hc; [|discriminate].
  injection Hc as <-.
  assert (Hfil : forall l : list Z,
             List.filter (is_candidate ms (threshold_of np_sqrt ms) ws) l = []).
  { induction l as [|i l IH]; [reflexivity|]. simpl.
    assert (is_candidate ms (threshold_of np_sqrt ms) ws i = false) as ->;
      [|exact IH].
    unfold is_candidate. apply Qltb_ge. unfold window_avg.
    rewrite Hmean; [exact Hthr|].
    eapply Forall_sublist_of; [apply window_at_sublist | exact Hzero]. }
  rewrite Hfil. reflexivity.
Qed.

End SampleCount.

Lemma sqrt_approx_nonneg (x : Q) : 0 <= sqrt_approx x.
Proof.
  unfold sqrt_approx, Qdiv. apply Qmult_le_0_compat.
  - change 0 with (inject_Z 0). rewrite <- Zle_Qle. apply Z.sqrt_nonneg.
  - apply Qinv_le_0_compat. change 0 with (inject_Z 0). rewrite <- Zle_Qle.
    lia.
Qed.

(** X16, on seven frames read with a stride of 2. *)
Lemma motion_sample_count_witness :
  let cap := capture_of 1 [0; 1; 0; 0; 1; 1; 0] in
  let raw := [Motion.mk 2 (inject_Z 2 / 1) (Qabs (0 - 0));
              Motion.mk 4 (inject_Z 4 / 1) (Qabs (1 - 0));
              Motion.mk 6 (inject_Z 6 / 1) (Qabs (0 - 1))] in
  (0 < frame_sample_rate (local_processor 2))%Z
  /\ collect_motion_scores luma_gray luma_flow (local_processor 2) cap = Ok raw
  /\ Z.of_nat (length raw)
     = Z.max 0
         ((Z.of_nat (length (frames cap))
           + frame_sample_rate (local_processor 2) - 1)
          / frame_sample_rate (local_processor 2) - 1).
Proof.
  intros cap raw.
  assert (Hr : (0 < frame_sample_rate (local_processor 2))%Z) by reflexivity.
  split; [exact Hr|]. split; [reflexivity|].
  exact (motion_sample_count luma_gray luma_flow (local_processor 2) cap raw
           Hr eq_refl).
Defined.

(** X17, on a 30 s video at 30 frames per second with the configuration of
    [config.py]: 449 motion samples for a window of 450. *)
Lemma short_video_yields_nothing_witness :
  (0 < frame_sample_rate (VideoProcessor_init false None ""))%Z
  /\ window_size_of (VideoProcessor_init false None "")
       (CAP_PROP_FPS (thirty_second_video "clip.mp4")) TARGET_CLIP_LENGTH
     = Ok 450%Z
  /\ ((Z.of_nat (length (frames (thirty_second_video "clip.mp4")))
       + frame_sample_rate (VideoProcessor_init false None "") - 1)
      / frame_sample_rate (VideoProcessor_init false None "") - 1 <= 450)%Z
  /\ _detect_segments_with_motion thirty_second_video luma_gray luma_flow
       sqrt_approx (VideoProcessor_init false None "") "clip.mp4"
       TARGET_CLIP_LENGTH
     = Ok [].
Proof.
  assert (Hr : (0 < frame_sample_rate (VideoProcessor_init false None ""))%Z)
    by reflexivity.
  assert (Hn : ((Z.of_nat (length (frames (thirty_second_video "clip.mp4")))
                 + frame_sample_rate (VideoProcessor_init false None "") - 1)
                / frame_sample_rate (VideoProcessor_init false None "") - 1
                <= 450)%Z) by (vm_compute; discriminate).
  split; [exact Hr|]. split; [reflexivity|]. split; [exact Hn|].
  exact (short_video_yields_nothing thirty_second_video luma_gray luma_flow
           sqrt_approx (VideoProcessor_init false None "") "clip.mp4"
           TARGET_CLIP_LENGTH 450 Hr eq_refl Hn).
Defined.

(** X18, on five frames of a still scene. *)
Lemma still_video_yields_nothing_witness :
  let raw := [Motion.mk 1 (inject_Z 1 / 1) (Qabs (0 - 0));
              Motion.mk 2 (inject_Z 2 / 1) (Qabs (0 - 0));
              Motion.mk 3 (inject_Z 3 / 1) (Qabs (0 - 0));
              Motion.mk 4 (inject_Z 4 / 1) (Qabs (0 - 0))] in
  (forall x, 0 <= sqrt_approx x)
  /\ collect_motion_scores luma_gray luma_flow (local_processor 1)
       (still_video "clip.mp4") = Ok raw
  /\ Forall (fun m => Motion.score m == 0) raw
  /\ _detect_segments_with_motion still_video luma_gray luma_flow sqrt_approx
       (local_processor 1) "clip.mp4" 2
     = Ok [].
Proof.
  intros raw.
  assert (Hs : Forall (fun m => Motion.score m == 0) raw)
    by (repeat constructor).
  split; [exact sqrt_approx_nonneg|]. split; [reflexivity|].
  split; [exact Hs|].
  exact (still_video_yields_nothing still_video luma_gray luma_flow
           sqrt_approx (local_processor 1) "clip.mp4" 2 raw 0
           sqrt_approx_nonneg eq_refl Hs).
Defined.
